(** * TreeSitterTree: incremental parse synchronisation

    A shallow embedding of
    [src/vs/editor/browser/services/treeSitterServices/treeSitterTree.ts].

    The class keeps one syntax tree in step with a text model.  Its methods
    are asynchronous, so the embedding threads an explicit state that holds
    the fields of the object together with the parts of the JavaScript run
    time the methods rely on: the promise store, the microtask queue and the
    idle-callback queue.  Each continuation of the source (the code after an
    [await], a [then] callback) is one constructor of [Reaction]. *)

From Stdlib Require Import ZArith Lia Ascii String.
From stdpp Require Import base option list strings.

Local Open Scope Z_scope.

(** ** Values of the collaborating libraries *)

(** [Parser.Point] and [Parser.Edit] of web-tree-sitter. *)
Record Point := mkPoint { row : Z; column : Z }.

Record Edit := mkEdit {
  startPosition : Point;
  oldEndPosition : Point;
  newEndPosition : Point;
  startIndex : Z;
  oldEndIndex : Z;
  newEndIndex : Z
}.

(** [Position] and [Range] of the editor core: one-based line and column. *)
Module Position.
Record t := mk { lineNumber : Z; column : Z }.
End Position.

Module Range.
Record t := mk {
    startLineNumber : Z;
    startColumn : Z;
    endLineNumber : Z;
    endColumn : Z
  }.

Definition fromPositions (start end_ : Position.t) : t :=
    mk (Position.lineNumber start) (Position.column start)
       (Position.lineNumber end_) (Position.column end_).
End Range.

(** One entry of [IModelContentChangedEvent.changes]. *)
Record Change := mkChange {
  range : Range.t;
  rangeOffset : Z;
  rangeLength : Z;
  text : string
}.

Definition textLength (s : string) : Z := Z.of_nat (String.length s).

(** The part of [ITextModel] the class calls.  [createTextModel] is the
    factory imported from the test utilities; the catch block of
    [_tryParseSync] uses it to build the frozen copy. *)
Class ITextModel (M : Type) := {
  getPositionAt : M -> Z -> Position.t;
  getValueInRange : M -> Range.t -> string;
  createSnapshot : M -> string;
  setValue : M -> string -> M;
  createTextModel : string -> M
}.

(** What a call of [parser.parse] can do: return a tree or throw. *)
Inductive ParseError := TimeBudgetExceeded | StructuralParseFailure.

Inductive Completion (A : Type) :=
| Normal (a : A)
| Throw (e : ParseError).
Arguments Normal {A} a.
Arguments Throw {A} e.

(** The text callback handed to the parser:
    [(startIndex, startPoint, endIndex) => string]. *)
Definition Reader := Z -> option Point -> option Z -> string.

(** web-tree-sitter: [parser.parse(callback, oldTree)] under the time budget
    last given to [setTimeoutMicros] (0 means none), and [tree.edit(edit)].
    Trees live in a heap, so [tree_edit] gives the new content of the edited
    object. *)
Class TreeSitter (T : Type) := {
  parser_parse : Reader -> option T -> Z -> Completion T;
  tree_edit : T -> Edit -> T
}.

(** ** Promises, jobs and the state *)

(** Trees and promises are named by their position in the heap and in the
    promise store. *)
Abbreviation TreeRef := nat (only parsing).
Abbreviation PromiseId := nat (only parsing).

Inductive Value :=
| VUndefined
| VTree (r : TreeRef)
| VNumber (n : Z).

(** The continuations of the source, by the place they are written at. *)
Inductive Reaction :=
| ResolveWith (p : PromiseId)
    (* a resolve function used as callback: [tree => resolve(tree)], and the
       forwarding installed when a promise is resolved with another one *)
| ParseTreeResume (asynchronous : bool) (self : PromiseId)
    (* rest of [_parseTree] after [await this._currentParseOperation] *)
| AfterParse (asynchronous : bool) (myParseOperation derived : PromiseId)
    (* the callback of [myParseOperation.then] in [_parseTree] *)
| FallbackDone (p : PromiseId)
    (* [tree => { this._tree = tree; resolve(tree) }] in [_tryParseSync] *)
| CountCalls (derived : PromiseId)
    (* [() => Promise.resolve(this._nCallsParseTree)] *)
| ConstructorThen.
    (* [tree => { if (tree) this._tree = tree }] in the constructor *)

Inductive PState :=
| Pending (reactions : list Reaction)
| Fulfilled (v : Value)
| Rejected (e : ParseError).

Inductive Job :=
| JFulfilled (r : Reaction) (v : Value)
| JRejected (r : Reaction) (e : ParseError)
| JResolveThenable (target thenable : PromiseId).

(** One record of a call of [parser.parse]: the model its text callback is
    bound to, the baseline tree, the budget in effect and the outcome. *)
Record ParseCall (M T : Type) := mkParseCall {
  pc_model : M;
  pc_baseline : option T;
  pc_budget : Z;
  pc_outcome : Completion T
}.
Arguments mkParseCall {M T}.
Arguments pc_model {M T}.
Arguments pc_baseline {M T}.
Arguments pc_budget {M T}.
Arguments pc_outcome {M T}.

(** A callback waiting in [runWhenIdle]: the closure of [_parseAsync]. *)
Record IdleTask (M : Type) := mkIdleTask {
  it_textModel : M;
  it_tree : option TreeRef;
  it_resolve : PromiseId
}.
Arguments mkIdleTask {M}.
Arguments it_textModel {M}.
Arguments it_tree {M}.
Arguments it_resolve {M}.

Record State (M T : Type) := mkState {
  _model : M;
  _tree : option TreeRef;
  _edits : list Edit;
  _nCallsParseTree : Z;
  _currentParseOperation : option PromiseId;
  timeoutMicros : Z;
  heap : list T;
  promises : list PState;
  microtasks : list Job;
  idleQueue : list (IdleTask M);
  parseLog : list (ParseCall M T)
}.
Arguments mkState {M T}.
Arguments _model {M T}.
Arguments _tree {M T}.
Arguments _edits {M T}.
Arguments _nCallsParseTree {M T}.
Arguments _currentParseOperation {M T}.
Arguments timeoutMicros {M T}.
Arguments heap {M T}.
Arguments promises {M T}.
Arguments microtasks {M T}.
Arguments idleQueue {M T}.
Arguments parseLog {M T}.

(** What [dispose] acts on lies partly outside the fields of the class:
    the registration of the change listener held in [_store], and the
    objects of the parser library, which [delete] frees.  [Owned] adds them
    to the state: whether the listener is registered, the trees [delete]
    has been called on, in call order, and whether the parser has been
    deleted. *)
Record Owned (M T : Type) := mkOwned {
  engine : State M T;
  listening : bool;
  deletedTrees : list TreeRef;
  parserDeleted : bool
}.
Arguments mkOwned {M T}.
Arguments engine {M T}.
Arguments listening {M T}.
Arguments deletedTrees {M T}.
Arguments parserDeleted {M T}.

(** ** The engine *)

Section Engine.
Context {M T : Type} {MI : ITextModel M} {TI : TreeSitter T}.

Local Abbreviation St := (State M T).

  (** Field updates; [setTimeoutMicros] is the parser's own setter. *)
Definition set_model (x : M) (s : St) : St :=
  let 'mkState _ b c d e f g h i j k := s in
  mkState x b c d e f g h i j k.
Definition set_tree (x : option TreeRef) (s : St) : St :=
  let 'mkState a _ c d e f g h i j k := s in
  mkState a x c d e f g h i j k.
Definition set_edits (x : list Edit) (s : St) : St :=
  let 'mkState a b _ d e f g h i j k := s in
  mkState a b x d e f g h i j k.
Definition set_nCallsParseTree (x : Z) (s : St) : St :=
  let 'mkState a b c _ e f g h i j k := s in
  mkState a b c x e f g h i j k.
Definition set_currentParseOperation (x : option PromiseId) (s : St) : St :=
  let 'mkState a b c d _ f g h i j k := s in
  mkState a b c d x f g h i j k.
Definition setTimeoutMicros (x : Z) (s : St) : St :=
  let 'mkState a b c d e _ g h i j k := s in
  mkState a b c d e x g h i j k.
Definition set_heap (x : list T) (s : St) : St :=
  let 'mkState a b c d e f _ h i j k := s in
  mkState a b c d e f x h i j k.
Definition set_promises (x : list PState) (s : St) : St :=
  let 'mkState a b c d e f g _ i j k := s in
  mkState a b c d e f g x i j k.
Definition set_microtasks (x : list Job) (s : St) : St :=
  let 'mkState a b c d e f g h _ j k := s in
  mkState a b c d e f g h x j k.
Definition set_idleQueue (x : list (IdleTask M)) (s : St) : St :=
  let 'mkState a b c d e f g h i _ k := s in
  mkState a b c d e f g h i x k.
Definition set_parseLog (x : list (ParseCall M T)) (s : St) : St :=
  let 'mkState a b c d e f g h i j _ := s in
  mkState a b c d e f g h i j x.

(** *** Promise primitives *)

Definition enqueue (js : list Job) (s : St) : St :=
    set_microtasks (microtasks s ++ js) s.

  (** [new Promise(...)], and the promise an [async] function hands out. *)
Definition newPromise (st : PState) (s : St) : St * PromiseId :=
    (set_promises (promises s ++ [st]) s, length (promises s)).

  (** [p.then(r)], and [await p] with [r] the rest of the function. *)
Definition promiseThen (p : PromiseId) (r : Reaction) (s : St) : St :=
    match promises s !! p with
    | Some (Pending rs) =>
        set_promises (<[p := Pending (rs ++ [r])]> (promises s)) s
    | Some (Fulfilled v) => enqueue [JFulfilled r v] s
    | Some (Rejected e) => enqueue [JRejected r e] s
    | None => s
    end.

  (** Settling a pending promise queues its reactions in registration
      order; a settled promise ignores further calls. *)
Definition fulfil (p : PromiseId) (v : Value) (s : St) : St :=
    match promises s !! p with
    | Some (Pending rs) =>
        enqueue ((fun r => JFulfilled r v) <$> rs)
          (set_promises (<[p := Fulfilled v]> (promises s)) s)
    | _ => s
    end.

Definition reject (p : PromiseId) (e : ParseError) (s : St) : St :=
    match promises s !! p with
    | Some (Pending rs) =>
        enqueue ((fun r => JRejected r e) <$> rs)
          (set_promises (<[p := Rejected e]> (promises s)) s)
    | _ => s
    end.

  (** Resolving [target] with the promise [thenable] (an [async] function
      returning a promise, a [then] callback returning one): a job that will
      call [thenable.then] with the resolving functions of [target]. *)
Definition resolveWithPromise (target thenable : PromiseId) (s : St) : St :=
    enqueue [JResolveThenable target thenable] s.

  (** *** registerTreeEdits *)

Definition editOfChange (model : M) (change : Change) : Edit :=
    let newEndPositionFromModel :=
      getPositionAt model (rangeOffset change + textLength (text change)) in
    {| startPosition :=
         mkPoint (Range.startLineNumber (range change) - 1)
                 (Range.startColumn (range change) - 1);
       oldEndPosition :=
         mkPoint (Range.endLineNumber (range change) - 1)
                 (Range.endColumn (range change) - 1);
       newEndPosition :=
         mkPoint (Position.lineNumber newEndPositionFromModel - 1)
                 (Position.column newEndPositionFromModel - 1);
       startIndex := rangeOffset change;
       oldEndIndex := rangeOffset change + rangeLength change;
       newEndIndex := rangeOffset change + textLength (text change) |}.

Definition registerTreeEdits (changes : list Change) (s : St) : St :=
    fold_left
      (fun s change =>
         set_edits (_edits s ++ [editOfChange (_model s) change]) s)
      changes s.

  (** *** _retrieveTextAtPosition *)

Definition _retrieveTextAtPosition (model : M) (startIndex : Z)
      (_startPoint : option Point) (endIndex : option Z) : string :=
    let startPosition := getPositionAt model startIndex in
    let endIndex :=
      match endIndex with
      | Some n => n
      | None => startIndex + 5000
      end in
    let endPosition := getPositionAt model endIndex in
    getValueInRange model (Range.fromPositions startPosition endPosition).

  (** *** updateAndGetTree *)

Definition applyEdits (r : TreeRef) (edits : list Edit) (h : list T)
      : list T :=
    fold_left (fun h edit => alter (fun t => tree_edit t edit) r h) edits h.

Definition updateAndGetTree (s : St) : St * option TreeRef :=
    match _tree s with
    | None => (s, None)
    | Some r =>
        (set_edits [] (set_heap (applyEdits r (_edits s) (heap s)) s),
         Some r)
    end.

  (** *** One call of [this._parser.parse]

    [callParser] is the call itself, with the text callback bound to
    [model]; [parse] runs it on the old tree object [tree], records it and
    allocates the tree it returns. *)

Definition callParser (model : M) (baseline : option T) (budget : Z)
    : Completion T :=
  parser_parse
    (fun startIndex startPoint endIndex =>
       _retrieveTextAtPosition model startIndex startPoint endIndex)
    baseline budget.

Definition parse (model : M) (tree : option TreeRef) (s : St)
    : St * Completion TreeRef :=
  let baseline := tree ≫= (fun r => heap s !! r) in
  let outcome := callParser model baseline (timeoutMicros s) in
  let s :=
    set_parseLog
      (parseLog s ++ [mkParseCall model baseline (timeoutMicros s) outcome])
      s in
  match outcome with
  | Normal t => (set_heap (heap s ++ [t]) s, Normal (length (heap s)))
  | Throw e => (s, Throw e)
  end.

(** *** _parseAsync: a fresh promise and one callback in [runWhenIdle] *)

Definition _parseAsync (textModel : M) (tree : option TreeRef) (s : St)
      : St * PromiseId :=
    let '(s, p) := newPromise (Pending []) s in
    (set_idleQueue (idleQueue s ++ [mkIdleTask textModel tree p]) s, p).

  (** The callback itself, run by the host with [arg.timeRemaining()]. *)
Definition runIdleCallback (task : IdleTask M) (timeRemaining : Z) (s : St)
      : St :=
    let s := setTimeoutMicros (timeRemaining * 1000) s in
    match parse (it_textModel task) (it_tree task) s with
    | (s, Normal result) =>
        fulfil (it_resolve task) (VTree result) (set_tree (Some result) s)
    | (s, Throw _) =>
        let '(s, p) := _parseAsync (it_textModel task) (it_tree task) s in
        promiseThen p (ResolveWith (it_resolve task)) s
    end.

  (** *** _tryParseSync *)

Definition _tryParseSync (asynchronous : bool) (s : St) : St * PromiseId :=
    let '(s, self) := newPromise (Pending []) s in
    let s := if asynchronous then setTimeoutMicros 10000 s else s in
    let '(s, tree) := updateAndGetTree s in
    match parse (_model s) tree s with
    | (s, Normal result) =>
        (fulfil self (VTree result) (set_tree (Some result) s), self)
    | (s, Throw _) =>
        let textModel :=
          setValue (createTextModel EmptyString) (createSnapshot (_model s)) in
        let '(s, outer) := newPromise (Pending []) s in
        let '(s, inner) := _parseAsync textModel tree s in
        let s := promiseThen inner (FallbackDone outer) s in
        (resolveWithPromise self outer s, self)
    end.

  (** *** _parseTree, up to its [await] *)

Definition _parseTree (asynchronous : bool) (s : St) : St * PromiseId :=
    let '(s, self) := newPromise (Pending []) s in
    match _currentParseOperation s with
    | Some op => (promiseThen op (ParseTreeResume asynchronous self) s, self)
    | None =>
        (enqueue [JFulfilled (ParseTreeResume asynchronous self) VUndefined] s,
         self)
    end.

Definition needsParse (s : St) : bool :=
    match _tree s, _edits s with
    | Some _, [] => false
    | _, _ => true
    end.

Definition incrementCalls (s : St) : St :=
    set_nCallsParseTree (_nCallsParseTree s + 1) s.

  (** [_parseTree] after its [await]. *)
Definition resumeParseTree (asynchronous : bool) (self : PromiseId) (s : St)
      : St :=
    if needsParse s then
      let '(s, myParseOperation) := _tryParseSync asynchronous s in
      let s := set_currentParseOperation (Some myParseOperation) s in
      let '(s, derived) := newPromise (Pending []) s in
      let s :=
        promiseThen myParseOperation
          (AfterParse asynchronous myParseOperation derived) s in
      let s := incrementCalls s in
      match _currentParseOperation s with
      | Some op => resolveWithPromise self op s
      | None => fulfil self VUndefined s
      end
    else
      let s := incrementCalls s in
      match _tree s with
      | Some r => fulfil self (VTree r) s
      | None => fulfil self VUndefined s
      end.

  (** The callback registered on [myParseOperation]. *)
Definition afterParse (asynchronous : bool)
      (myParseOperation derived : PromiseId) (tree : Value) (s : St) : St :=
    let s :=
      if decide (_currentParseOperation s = Some myParseOperation)
      then set_currentParseOperation None s else s in
    match _edits s with
    | _ :: _ =>
        let '(s, p) := _parseTree asynchronous s in
        resolveWithPromise derived p s
    | [] => fulfil derived tree (incrementCalls s)
    end.

  (** *** The public methods *)

Definition parseTree (asynchronous : bool) (s : St) : St * PromiseId :=
    let '(s, self) := newPromise (Pending []) s in
    let s := set_nCallsParseTree 0 s in
    let '(s, p) := _parseTree asynchronous s in
    (resolveWithPromise self p s, self).

Definition parseTreeAndCountCalls (asynchronous : bool) (s : St)
      : St * PromiseId :=
    let '(s, self) := newPromise (Pending []) s in
    let s := set_nCallsParseTree 0 s in
    let '(s, p) := _parseTree asynchronous s in
    let '(s, derived) := newPromise (Pending []) s in
    let s := promiseThen p (CountCalls derived) s in
    (resolveWithPromise self derived s, self).

  (** The constructor, up to the registration of the change listener.  The
      parser is new, so no budget has been set on it. *)
Definition construct (model : M) : St :=
    let s := mkState model None [] 0 None 0 [] [] [] [] [] in
    let '(s, p) := parseTree true s in
    promiseThen p ConstructorThen s.

  (** *** Running jobs *)

Definition runFulfilled (r : Reaction) (v : Value) (s : St) : St :=
    match r with
    | ResolveWith p => fulfil p v s
    | ParseTreeResume asynchronous self => resumeParseTree asynchronous self s
    | AfterParse asynchronous myParseOperation derived =>
        afterParse asynchronous myParseOperation derived v s
    | FallbackDone p =>
        let s := match v with
                 | VTree r => set_tree (Some r) s
                 | _ => set_tree None s
                 end in
        fulfil p v s
    | CountCalls derived =>
        let '(s, q) := newPromise (Fulfilled (VNumber (_nCallsParseTree s))) s in
        resolveWithPromise derived q s
    | ConstructorThen =>
        match v with
        | VTree r => set_tree (Some r) s
        | _ => s
        end
    end.

  (** A rejection would travel down the same chains; no handler for it is
      written anywhere in the class. *)
Definition runRejected (r : Reaction) (e : ParseError) (s : St) : St :=
    match r with
    | ResolveWith p => reject p e s
    | ParseTreeResume _ self => reject self e s
    | AfterParse _ _ derived => reject derived e s
    | CountCalls derived => reject derived e s
    | FallbackDone _ => s
    | ConstructorThen => s
    end.

Definition runJob (j : Job) (s : St) : St :=
    match j with
    | JFulfilled r v => runFulfilled r v s
    | JRejected r e => runRejected r e s
    | JResolveThenable target thenable =>
        promiseThen thenable (ResolveWith target) s
    end.

  (** The microtask checkpoint: jobs run in queue order until none is left. *)
Fixpoint drain (fuel : nat) (s : St) : St :=
    match fuel with
    | O => s
    | S fuel =>
        match microtasks s with
        | [] => s
        | j :: js => drain fuel (runJob j (set_microtasks js s))
        end
    end.

  (** *** What the host can do *)

  (** Things done synchronously within one turn of the event loop. *)
Inductive Action :=
  | CallParseTree (asynchronous : bool)
  | CallParseTreeAndCountCalls (asynchronous : bool)
  | ChangeContent (newModel : M) (changes : list Change).

  (** A content change: the model has changed, then the listener runs. *)
Definition act (a : Action) (s : St) : St :=
    match a with
    | CallParseTree asynchronous => fst (parseTree asynchronous s)
    | CallParseTreeAndCountCalls asynchronous =>
        fst (parseTreeAndCountCalls asynchronous s)
    | ChangeContent newModel changes =>
        registerTreeEdits changes (set_model newModel s)
    end.

Inductive Turn :=
| Script (actions : list Action)
| Idle (timeRemaining : Z).

Definition runScript (actions : list Action) (s : St) : St :=
  fold_left (fun s a => act a s) actions s.

(** The host runs the oldest idle callback. *)
Definition idleSlice (timeRemaining : Z) (s : St) : St :=
  match idleQueue s with
  | [] => s
  | task :: rest => runIdleCallback task timeRemaining (set_idleQueue rest s)
  end.

Definition runTurn (fuel : nat) (t : Turn) (s : St) : St :=
  match t with
  | Script actions => drain fuel (runScript actions s)
  | Idle timeRemaining => drain fuel (idleSlice timeRemaining s)
  end.

Definition runTurns (fuel : nat) (ts : list Turn) (s : St) : St :=
  fold_left (fun s t => runTurn fuel t s) ts s.

(** States an engine can be in: built by the constructor, then any turns. *)
Inductive reachable : St -> Prop :=
| reachable_construct model : reachable (construct model)
| reachable_turn fuel t s : reachable s -> reachable (runTurn fuel t s).

(** *** Notions used to state the properties *)

(** The budget in effect for the attempt of [_tryParseSync]: the source sets
    one only when [asynchronous] holds. *)
Definition budgetOf (asynchronous : bool) (s : St) : Z :=
  if asynchronous then 10000 else timeoutMicros s.

(** The frozen copy built in the catch block of [_tryParseSync]. *)
Definition frozenCopy (model : M) : M :=
  setValue (createTextModel EmptyString) (createSnapshot model).

(** A fallback in progress, seen from outside: the document changes, or the
    host runs an idle callback. *)
Inductive FallbackStep :=
| Mutate (newModel : M) (changes : list Change)
| Slice (timeRemaining : Z).

Definition fallbackStep (st : FallbackStep) (s : St) : St :=
  match st with
  | Mutate newModel changes => act (ChangeContent newModel changes) s
  | Slice timeRemaining => idleSlice timeRemaining s
  end.

Definition runFallback (steps : list FallbackStep) (s : St) : St :=
  fold_left (fun s st => fallbackStep st s) steps s.

Fixpoint slicesOf (steps : list FallbackStep) : list Z :=
  match steps with
  | [] => []
  | Mutate _ _ :: steps => slicesOf steps
  | Slice t :: steps => t :: slicesOf steps
  end.

(** The old tree the attempt of [_tryParseSync] hands to the parser: the
    current tree object once the buffer has been applied to it. *)
Definition attemptBaseline (s : St) : option T :=
  match _tree s with
  | Some r => applyEdits r (_edits s) (heap s) !! r
  | None => None
  end.

(** The promises made by [n] retries of [_parseAsync], allocated from
    [start] on: the first forwards to [q], each later one to the one
    before.  [chainTop] is the promise the queued callback resolves. *)
Fixpoint retryChain (q : PromiseId) (start n : nat) : list PState :=
  match n with
  | O => []
  | S n => Pending [ResolveWith q] :: retryChain start (S start) n
  end.

Definition chainTop (q : PromiseId) (start n : nat) : PromiseId :=
  match n with
  | O => q
  | S n => (start + n)%nat
  end.

(** The text models the queued idle callbacks are bound to. *)
Definition snapshotsOf (s : St) : list M := it_textModel <$> idleQueue s.

(** Two states that agree on everything but the live document and the
    edits buffered from its changes. *)
Definition sameButDocument (s1 s2 : St) : Prop :=
  _tree s1 = _tree s2 /\
  _nCallsParseTree s1 = _nCallsParseTree s2 /\
  _currentParseOperation s1 = _currentParseOperation s2 /\
  timeoutMicros s1 = timeoutMicros s2 /\
  heap s1 = heap s2 /\
  promises s1 = promises s2 /\
  microtasks s1 = microtasks s2 /\
  idleQueue s1 = idleQueue s2 /\
  parseLog s1 = parseLog s2.

(** No promise is rejected, and no rejection is on its way. *)
Definition notRejected (st : PState) : Prop :=
  match st with
  | Rejected _ => False
  | _ => True
  end.

Definition notRejection (j : Job) : Prop :=
  match j with
  | JRejected _ _ => False
  | _ => True
  end.

Definition noRejection (s : St) : Prop :=
  Forall notRejected (promises s) /\ Forall notRejection (microtasks s).

(** *** Further notions *)

(** What the class expects of a text model whose text is [content m]:
    offsets are cut at the ends of the text, the text between the
    positions of two offsets in order is the text between the offsets, a
    snapshot holds the text, and [setValue] replaces it. *)
Record TextModelLaws (content : M -> string) : Prop := {
  read_range : forall (m : M) (a b : Z),
    a <= b ->
    getValueInRange m
      (Range.fromPositions (getPositionAt m a) (getPositionAt m b))
    = (let first := Nat.min (Z.to_nat a) (String.length (content m)) in
       let last := Nat.min (Z.to_nat b) (String.length (content m)) in
       substring first (last - first) (content m));
  snapshot_text : forall m : M, createSnapshot m = content m;
  setValue_text : forall (m : M) (v : string), content (setValue m v) = v
}.

(** *** dispose *)

(** The object as the constructor leaves it. *)
Definition create (model : M) : Owned M T :=
  mkOwned (construct model) true [] false.

Definition dispose (o : Owned M T) : Owned M T :=
  let deleted :=
    match _tree (engine o) with
    | Some r => deletedTrees o ++ [r]
    | None => deletedTrees o
    end in
  mkOwned (set_edits [] (engine o)) false deleted true.

(** The document changes: the model is the live document, so it changes
    whether or not the listener is still registered. *)
Definition onDidChangeContent (newModel : M) (changes : list Change)
    (o : Owned M T) : Owned M T :=
  let s :=
    if listening o then act (ChangeContent newModel changes) (engine o)
    else set_model newModel (engine o) in
  mkOwned s (listening o) (deletedTrees o) (parserDeleted o).

Definition changeAll (events : list (M * list Change)) (o : Owned M T)
    : Owned M T :=
  fold_left (fun o ev => onDidChangeContent (fst ev) (snd ev) o) events o.

End Engine.

(** ** A small text model and a small parser, for concrete runs

    [StringModel] is a text model over a plain string with line feeds as
    line ends.  [ToyTree] is a stand-in for the parser: it reads the whole
    text through the callback, spends 2000 microseconds per character, fails
    on a text that starts with an exclamation mark, and keeps only the text
    read and the end of the root node, which [tree.edit] shifts the way the
    library shifts a node that ends after the edit. *)

Module StringModel.

Definition isLineFeed (c : Ascii.ascii) : bool := Ascii.eqb c "010"%char.

Fixpoint positionAt (s : string) (offset : nat) (line col : Z) : Position.t :=
  match offset, s with
  | S n, String c rest =>
      if isLineFeed c then positionAt rest n (line + 1) 1
      else positionAt rest n line (col + 1)
  | _, _ => Position.mk line col
  end.

Definition reached (line col tline tcol : Z) : bool :=
  (tline <? line) || ((tline =? line) && (tcol <=? col)).

Fixpoint offsetOf (s : string) (tline tcol line col : Z) : nat :=
  if reached line col tline tcol then O
  else
    match s with
    | EmptyString => O
    | String c rest =>
        if isLineFeed c then S (offsetOf rest tline tcol (line + 1) 1)
        else S (offsetOf rest tline tcol line (col + 1))
    end.

Definition valueInRange (s : string) (r : Range.t) : string :=
  let a := offsetOf s (Range.startLineNumber r) (Range.startColumn r) 1 1 in
  let b := offsetOf s (Range.endLineNumber r) (Range.endColumn r) 1 1 in
  substring a (b - a) s.

#[export] Instance model : ITextModel string := {|
  getPositionAt := fun s offset => positionAt s (Z.to_nat offset) 1 1;
  getValueInRange := valueInRange;
  createSnapshot := fun s => s;
  setValue := fun _ content => content;
  createTextModel := fun content => content
|}.

End StringModel.

Module ToyParser.

Record ToyTree := mkToyTree { tt_text : string; tt_end : Z }.

Fixpoint readAll (fuel : nat) (reader : Reader) (start : Z) : string :=
  match fuel with
  | O => EmptyString
  | S fuel =>
      let chunk := reader start None None in
      match chunk with
      | EmptyString => EmptyString
      | _ => (chunk ++ readAll fuel reader (start + textLength chunk))%string
      end
  end.

Definition startsWithBang (s : string) : bool :=
  match s with
  | String c _ => Ascii.eqb c "!"%char
  | EmptyString => false
  end.

Definition toy_parse (reader : Reader) (old : option ToyTree) (budget : Z)
    : Completion ToyTree :=
  let text := readAll 4 reader 0 in
  if startsWithBang text then Throw StructuralParseFailure
  else if (negb (budget =? 0)) && (budget <? 2000 * textLength text)
  then Throw TimeBudgetExceeded
  else Normal (mkToyTree text (textLength text)).

Definition toy_edit (t : ToyTree) (e : Edit) : ToyTree :=
  if oldEndIndex e <=? tt_end t
  then mkToyTree (tt_text t) (tt_end t + (newEndIndex e - oldEndIndex e))
  else if startIndex e <? tt_end t
  then mkToyTree (tt_text t) (newEndIndex e)
  else t.

#[export] Instance treeSitter : TreeSitter ToyTree := {|
  parser_parse := toy_parse;
  tree_edit := toy_edit
|}.

End ToyParser.

(** ** Concrete engines over [StringModel] and [ToyParser] *)

Module Scenario.
Import StringModel ToyParser.

Definition Engine := State string ToyTree.

(** An insertion of [inserted] at [offset] of a one-line document, and the
    removal of [len] characters there. *)
Definition insertAt (offset : Z) (inserted : string) : Change :=
  mkChange (Range.mk 1 (offset + 1) 1 (offset + 1)) offset 0 inserted.

Definition deleteAt (offset len : Z) : Change :=
  mkChange (Range.mk 1 (offset + 1) 1 (offset + len + 1)) offset len EmptyString.

(** An engine on the document [ab] whose first parse has completed: the
    text is short enough for the attempt to finish within its budget. *)
Definition settled : Engine := drain 16 (construct "ab").

(** The same engine once the document has grown to [abcdefg]; no parse has
    been requested yet. *)
Definition grown : Engine :=
  runTurn 16 (Script [ChangeContent "abcdefg" [insertAt 2 "cdefg"]]) settled.

(** Two changes in a row: [xyz] is inserted in front of [ab], then the [a]
    is removed. *)
Definition twoEdits : Engine :=
  runTurn 16
    (Script [ChangeContent "xyzab" [insertAt 0 "xyz"];
             ChangeContent "xyzb" [deleteAt 3 1]])
    settled.

(** A parse requested on [abcdef]: the attempt exceeds its budget and the
    request waits on the fallback.  [request] is the promise handed to the
    caller. *)
Definition request : nat := length (promises settled).

Definition waiting : Engine :=
  runTurn 16
    (Script [ChangeContent "abcdef" [insertAt 2 "cdef"]; CallParseTree true])
    settled.

(** The last character is removed while the fallback is in progress; then
    the host grants an idle slice of 50 ms, in which the fallback
    finishes. *)
Definition editedMeanwhile : Engine :=
  runTurn 16 (Script [ChangeContent "abcde" [deleteAt 5 1]]) waiting.

Definition afterFallback : Engine := runTurn 16 (Idle 50) editedMeanwhile.

(** The same, with a character added instead: the parse that follows the
    fallback exceeds its budget in turn. *)
Definition extendedMeanwhile : Engine :=
  runTurn 16 (Script [ChangeContent "abcdefg" [insertAt 6 "g"]]) waiting.

Definition afterFallbackAgain : Engine :=
  runTurn 16 (Idle 50) extendedMeanwhile.

(** A synchronous request on the settled engine, after the document has
    grown to [abcdef]. *)
Definition synchronousRequest : Engine :=
  runTurn 16
    (Script [ChangeContent "abcdef" [insertAt 2 "cdef"]; CallParseTree false])
    settled.

(** An engine is built on [abcdef] and asked for its tree in the same
    turn. *)
Definition built : Engine := construct "abcdef".

Definition twoRequests : Engine := runTurn 16 (Script [CallParseTree true]) built.

(** The document changes in the turn the engine is built in. *)
Definition changedAtBirth : Engine :=
  runScript [ChangeContent "abc" [insertAt 2 "c"]] (construct "ab").

End Scenario.

(** ** Properties *)

Section Properties.
Context {M T : Type} {MI : ITextModel M} {TI : TreeSitter T}.

Local Abbreviation St := (State M T).

(** *** Lists that grow at the end

    Promise and tree identifiers are positions in lists that only grow at
    the end; these rewrite rules resolve the lookups met when a run is
    followed step by step. *)

Lemma lookup_fresh0 {A} (ps l : list A) : (ps ++ l) !! length ps = l !! 0%nat.
Proof. rewrite lookup_app_r by lia. by rewrite Nat.sub_diag. Qed.

Lemma lookup_fresh {A} (ps l : list A) (k : nat) :
  (ps ++ l) !! (length ps + k)%nat = l !! k.
Proof. rewrite lookup_app_r by lia. f_equal. lia. Qed.

Lemma insert_fresh0 {A} (ps l : list A) (x : A) :
  <[length ps := x]> (ps ++ l) = ps ++ <[0%nat := x]> l.
Proof. rewrite <- (Nat.add_0_r (length ps)) at 1. apply insert_app_r. Qed.

Lemma alter_fold_lookup (f : T -> Edit -> T) (r : nat) (edits : list Edit)
    (h : list T) (t : T) :
  h !! r = Some t ->
  fold_left (fun h edit => alter (fun t => f t edit) r h) edits h !! r
  = Some (fold_left f edits t).
Proof.
  revert h t. induction edits as [|e edits IH]; intros h t Hr; [done|].
  cbn. apply IH. rewrite list_lookup_alter_eq, Hr. done.
Qed.

Lemma alter_fold_length (f : T -> Edit -> T) (r : nat) (edits : list Edit)
    (h : list T) :
  length (fold_left (fun h edit => alter (fun t => f t edit) r h) edits h)
  = length h.
Proof.
  revert h. induction edits as [|e edits IH]; intros h; [done|].
  cbn. rewrite IH. apply length_alter.
Qed.

(** *** Following a run step by step

    A run is followed call by call: a function of the engine is unfolded
    only where the state it is applied to is known, innermost call first,
    and a parser call is resolved by rewriting with its outcome. *)

#[local] Arguments callParser : simpl never.
#[local] Arguments applyEdits : simpl never.

Lemma drain_S (fuel : nat) (s : St) :
  drain (S fuel) s
  = match microtasks s with
    | [] => s
    | j :: js => drain fuel (runJob j (set_microtasks js s))
    end.
Proof. reflexivity. Qed.

Ltac known s :=
  lazymatch s with
  | mkState _ _ _ _ _ _ _ _ _ _ _ => idtac
  end.

Ltac open_call c f :=
  let c' := eval cbv beta delta [f] in c in
  change c with c'.

Ltac step_call :=
  match goal with
  | |- context [enqueue ?x ?s] => known s; open_call (enqueue x s) @enqueue
  | |- context [newPromise ?x ?s] =>
      known s; open_call (newPromise x s) @newPromise
  | |- context [promiseThen ?x ?y ?s] =>
      known s; open_call (promiseThen x y s) @promiseThen
  | |- context [fulfil ?x ?y ?s] => known s; open_call (fulfil x y s) @fulfil
  | |- context [resolveWithPromise ?x ?y ?s] =>
      known s; open_call (resolveWithPromise x y s) @resolveWithPromise
  | |- context [updateAndGetTree ?s] =>
      known s; open_call (updateAndGetTree s) @updateAndGetTree
  | |- context [_parseAsync ?x ?y ?s] =>
      known s; open_call (_parseAsync x y s) @_parseAsync
  | |- context [idleSlice ?x ?s] =>
      known s; open_call (idleSlice x s) @idleSlice
  | |- context [_parseTree ?x ?s] =>
      known s; open_call (_parseTree x s) @_parseTree
  | |- context [needsParse ?s] => known s; open_call (needsParse s) @needsParse
  | |- context [incrementCalls ?s] =>
      known s; open_call (incrementCalls s) @incrementCalls
  | |- context [resumeParseTree ?x ?y ?s] =>
      known s; open_call (resumeParseTree x y s) @resumeParseTree
  | |- context [afterParse ?x ?y ?z ?v ?s] =>
      known s; open_call (afterParse x y z v s) @afterParse
  | |- context [parseTree ?x ?s] =>
      known s; open_call (parseTree x s) @parseTree
  | |- context [parseTreeAndCountCalls ?x ?s] =>
      known s;
      open_call (parseTreeAndCountCalls x s) @parseTreeAndCountCalls
  | |- context [runFulfilled ?x ?y ?s] =>
      known s; open_call (runFulfilled x y s) @runFulfilled
  | |- context [runJob ?x ?s] => known s; open_call (runJob x s) @runJob
  | |- context [attemptBaseline ?s] =>
      known s; open_call (attemptBaseline s) @attemptBaseline
  | |- context [budgetOf ?x ?s] => known s; open_call (budgetOf x s) @budgetOf
  | |- context [drain (S ?n) ?s] => known s; rewrite (drain_S n s)
  end.

Ltac tidy :=
  cbn [fst snd _model _tree _edits _nCallsParseTree _currentParseOperation
       timeoutMicros heap promises microtasks idleQueue parseLog
       set_model set_tree set_edits set_nCallsParseTree
       set_currentParseOperation setTimeoutMicros set_heap set_promises
       set_microtasks set_idleQueue set_parseLog
       it_textModel it_tree it_resolve
       app map fmap list_fmap length lookup list_lookup insert list_insert
       mbind option_bind].

Ltac run :=
  repeat first
    [ rewrite <- !app_assoc
    | rewrite length_app
    | rewrite lookup_fresh0
    | rewrite lookup_fresh
    | rewrite insert_fresh0
    | rewrite insert_app_r
    | rewrite decide_True by reflexivity
    | step_call
    | progress tidy ].

(** *** The two ways a parser call can end *)

Lemma applyEdits_lookup (r : TreeRef) (edits : list Edit) (h : list T) (t : T) :
  h !! r = Some t ->
  applyEdits r edits h !! r = Some (fold_left tree_edit edits t).
Proof. apply alter_fold_lookup. Qed.

Lemma applyEdits_length (r : TreeRef) (edits : list Edit) (h : list T) :
  length (applyEdits r edits h) = length h.
Proof. apply alter_fold_length. Qed.

(** The state in which [_tryParseSync] calls the parser. *)
Lemma tryParseSync_call (asynchronous : bool) (s : St) :
  let s1 := fst (newPromise (Pending []) s) in
  let s2 := if asynchronous then setTimeoutMicros 10000 s1 else s1 in
  let s3 := fst (updateAndGetTree s2) in
  _model s3 = _model s /\
  snd (updateAndGetTree s2) ≫= (fun r => heap s3 !! r) = attemptBaseline s /\
  timeoutMicros s3 = budgetOf asynchronous s.
Proof.
  destruct s as [m tr ed n cur tm hp ps mt iq pl].
  by destruct asynchronous, tr.
Qed.

Lemma tryParseSync_normal (asynchronous : bool) (s : St) (t : T) :
  callParser (_model s) (attemptBaseline s) (budgetOf asynchronous s)
  = Normal t ->
  _tryParseSync asynchronous s
  = let '(s, self) := newPromise (Pending []) s in
    let s := if asynchronous then setTimeoutMicros 10000 s else s in
    let '(s, tree) := updateAndGetTree s in
    let call :=
      mkParseCall (_model s) (tree ≫= (fun r => heap s !! r))
        (timeoutMicros s) (Normal t) in
    let result := length (heap s) in
    (fulfil self (VTree result)
       (set_tree (Some result)
          (set_heap (heap s ++ [t]) (set_parseLog (parseLog s ++ [call]) s))),
     self).
Proof.
  intros Hcall. destruct (tryParseSync_call asynchronous s) as (Hm & Hb & Ht).
  unfold _tryParseSync, parse. cbn zeta in *.
  destruct (newPromise _ s) as [s1 self]; cbn [fst] in *.
  destruct (updateAndGetTree _) as [s3 tree]; cbn [fst snd] in *.
  rewrite Hm, Hb, Ht, Hcall. by destruct s3.
Qed.

Lemma tryParseSync_throw (asynchronous : bool) (s : St) (e : ParseError) :
  callParser (_model s) (attemptBaseline s) (budgetOf asynchronous s)
  = Throw e ->
  _tryParseSync asynchronous s
  = let '(s, self) := newPromise (Pending []) s in
    let s := if asynchronous then setTimeoutMicros 10000 s else s in
    let '(s, tree) := updateAndGetTree s in
    let call :=
      mkParseCall (_model s) (tree ≫= (fun r => heap s !! r))
        (timeoutMicros s) (Throw e) in
    let s := set_parseLog (parseLog s ++ [call]) s in
    let '(s, outer) := newPromise (Pending []) s in
    let '(s, inner) := _parseAsync (frozenCopy (_model s)) tree s in
    (resolveWithPromise self outer
       (promiseThen inner (FallbackDone outer) s),
     self).
Proof.
  intros Hcall. destruct (tryParseSync_call asynchronous s) as (Hm & Hb & Ht).
  unfold _tryParseSync, parse. cbn zeta in *.
  destruct (newPromise _ s) as [s1 self]; cbn [fst] in *.
  destruct (updateAndGetTree _) as [s3 tree]; cbn [fst snd] in *.
  rewrite Hm, Hb, Ht, Hcall. by destruct s3.
Qed.

Lemma runIdleCallback_normal (task : IdleTask M) (timeRemaining : Z) (s : St)
    (t : T) :
  callParser (it_textModel task) (it_tree task ≫= (fun r => heap s !! r))
    (timeRemaining * 1000) = Normal t ->
  runIdleCallback task timeRemaining s
  = let call :=
      mkParseCall (it_textModel task)
        (it_tree task ≫= (fun r => heap s !! r)) (timeRemaining * 1000)
        (Normal t) in
    let result := length (heap s) in
    fulfil (it_resolve task) (VTree result)
      (set_tree (Some result)
         (set_heap (heap s ++ [t])
            (set_parseLog (parseLog s ++ [call])
               (setTimeoutMicros (timeRemaining * 1000) s)))).
Proof.
  intros Hcall. destruct s as [m tr ed n cur tm hp ps mt iq pl].
  unfold runIdleCallback, parse. cbn in *. by rewrite Hcall.
Qed.

Lemma runIdleCallback_throw (task : IdleTask M) (timeRemaining : Z) (s : St)
    (e : ParseError) :
  callParser (it_textModel task) (it_tree task ≫= (fun r => heap s !! r))
    (timeRemaining * 1000) = Throw e ->
  runIdleCallback task timeRemaining s
  = let call :=
      mkParseCall (it_textModel task)
        (it_tree task ≫= (fun r => heap s !! r)) (timeRemaining * 1000)
        (Throw e) in
    let '(s, p) :=
      _parseAsync (it_textModel task) (it_tree task)
        (set_parseLog (parseLog s ++ [call])
           (setTimeoutMicros (timeRemaining * 1000) s)) in
    promiseThen p (ResolveWith (it_resolve task)) s.
Proof.
  intros Hcall. destruct s as [m tr ed n cur tm hp ps mt iq pl].
  unfold runIdleCallback, parse. cbn in *. by rewrite Hcall.
Qed.

(** *** registerTreeEdits *)

Lemma registerTreeEdits_spec (changes : list Change) (s : St) :
  registerTreeEdits changes s
  = set_edits (_edits s ++ map (editOfChange (_model s)) changes) s.
Proof.
  unfold registerTreeEdits. revert s.
  induction changes as [|c changes IH]; intros s.
  - destruct s; cbn. by rewrite app_nil_r.
  - cbn [fold_left]. rewrite IH. destruct s; cbn. by rewrite <- app_assoc.
Qed.

(** C5.  Each change of an event appends one edit, built against the model
    the engine holds when the listener runs, which for a change event is the
    model as changed.  With a non-negative
    [rangeLength] its start index is at most both end indices; its start
    and old end points are the corners of the changed range, and its new
    end point is the model's position of the new end offset, each shifted
    from one-based to zero-based. *)
Theorem registerTreeEdits_edits (s : St) (changes : list Change) :
  Forall (fun change => 0 <= rangeLength change) changes ->
  _edits (registerTreeEdits changes s)
  = _edits s ++ map (editOfChange (_model s)) changes /\
  (forall newModel,
     _edits (act (ChangeContent newModel changes) s)
     = _edits s ++ map (editOfChange newModel) changes) /\
  Forall
    (fun change =>
       let edit := editOfChange (_model s) change in
       let newEnd :=
         getPositionAt (_model s)
           (rangeOffset change + textLength (text change)) in
       startIndex edit <= oldEndIndex edit /\
       startIndex edit <= newEndIndex edit /\
       startPosition edit
       = mkPoint (Range.startLineNumber (range change) - 1)
                 (Range.startColumn (range change) - 1) /\
       oldEndPosition edit
       = mkPoint (Range.endLineNumber (range change) - 1)
                 (Range.endColumn (range change) - 1) /\
       newEndPosition edit
       = mkPoint (Position.lineNumber newEnd - 1)
                 (Position.column newEnd - 1))
    changes.
Proof.
  intros Hlen. split_and!.
  - rewrite registerTreeEdits_spec. by destruct s.
  - intros newModel. cbn [act]. rewrite registerTreeEdits_spec. by destruct s.
  - eapply Forall_impl; [exact Hlen|].
    intros change Hc. cbn in *. unfold textLength.
    repeat split; try reflexivity; lia.
Qed.

(** *** updateAndGetTree and the attempt of _tryParseSync *)


(** C10.  Without a current tree [updateAndGetTree] returns nothing and
    changes nothing, so the attempt of [_tryParseSync] leaves the buffer as
    it was.  When the document changes right after the engine is built, the
    first parse runs with those edits buffered and no tree; if it succeeds,
    the callback registered on it finds the edits still there and a second
    pass follows, which applies them to the tree just produced and calls
    the parser again.  In any state, that callback starts [_parseTree] anew
    when it finds the buffer non-empty. *)
Theorem first_parse_keeps_edits (s : St) (asynchronous : bool) :
  _tree s = None ->
  updateAndGetTree s = (s, None) /\
  _edits (fst (_tryParseSync asynchronous s)) = _edits s /\
  (forall (model model' : M) (change : Change) (changes : list Change)
          (t1 : T),
     callParser model' None 10000 = Normal t1 ->
     let edits := map (editOfChange model') (change :: changes) in
     let baseline := fold_left tree_edit edits t1 in
     let s' :=
       drain 16
         (runScript [ChangeContent model' (change :: changes)]
            (construct model)) in
     parseLog s'
     = [mkParseCall model' None 10000 (Normal t1);
        mkParseCall model' (Some baseline) 10000
          (callParser model' (Some baseline) 10000)] /\
     _edits s' = []) /\
  (forall (s2 : St) (myParseOperation derived : PromiseId) (tree : Value)
          (e : Edit) (es : list Edit),
     _edits s2 = e :: es ->
     afterParse asynchronous myParseOperation derived tree s2
     = let s2 :=
         if decide (_currentParseOperation s2 = Some myParseOperation)
         then set_currentParseOperation None s2 else s2 in
       let '(s3, p) := _parseTree asynchronous s2 in
       resolveWithPromise derived p s3).
Proof.
  intros Htree.
  destruct s as [m tr ed n cur tm hp ps mt iq pl]; cbn in Htree. subst tr.
  split_and!; [| | |
    intros s2 op derived tree e es Hed; unfold afterParse;
    destruct s2; cbn in Hed; subst; by case_decide].
  - reflexivity.
  - destruct (callParser m None (if asynchronous then 10000 else tm))
      as [t'|e] eqn:Hcall.
    + rewrite (tryParseSync_normal _ _ t') by (by run).
      destruct asynchronous; by run.
    + rewrite (tryParseSync_throw _ _ e) by (by run).
      destruct asynchronous; by run.
  - intros model model' change changes t1 Hfirst. cbn zeta.
    set (edits := map (editOfChange model') (change :: changes)).
    match goal with |- context [drain ?k ?x] => set (s' := drain k x) end.
    destruct (callParser model' (Some (fold_left tree_edit edits t1)) 10000)
      as [t2|e2] eqn:Hsecond.
    all: eassert (s' = _) as ->;
      [ subst s'; unfold construct; cbn [runScript fold_left act]; run;
        rewrite registerTreeEdits_spec; run;
        rewrite (tryParseSync_normal _ _ t1) by (by run); run;
        first
          [ rewrite (tryParseSync_normal _ _ t2)
              by (run; rewrite (applyEdits_lookup 0 _ [t1] t1) by reflexivity;
                  exact Hsecond)
          | rewrite (tryParseSync_throw _ _ e2)
              by (run; rewrite (applyEdits_lookup 0 _ [t1] t1) by reflexivity;
                  exact Hsecond) ];
        run; reflexivity
      | run; by rewrite (applyEdits_lookup 0 _ [t1] t1) ].
Qed.

(** *** The cache-hit path of _parseTree *)


(** *** The fallback reads its frozen copy *)

Lemma sameButDocument_refl (s : St) : sameButDocument s s.
Proof. by repeat split. Qed.

Lemma sameButDocument_sym (s1 s2 : St) :
  sameButDocument s1 s2 -> sameButDocument s2 s1.
Proof.
  intros (H1 & H2 & H3 & H4 & H5 & H6 & H7 & H8 & H9). by repeat split.
Qed.

Lemma sameButDocument_trans (s1 s2 s3 : St) :
  sameButDocument s1 s2 -> sameButDocument s2 s3 -> sameButDocument s1 s3.
Proof.
  intros (H1 & H2 & H3 & H4 & H5 & H6 & H7 & H8 & H9)
         (K1 & K2 & K3 & K4 & K5 & K6 & K7 & K8 & K9).
  repeat split; congruence.
Qed.

Lemma mutate_sameButDocument (newModel : M) (changes : list Change) (s : St) :
  sameButDocument (act (ChangeContent newModel changes) s) s.
Proof.
  cbn [act]. rewrite registerTreeEdits_spec. destruct s. by repeat split.
Qed.

Lemma idleSlice_sameButDocument (t : Z) (s1 s2 : St) :
  sameButDocument s1 s2 ->
  sameButDocument (idleSlice t s1) (idleSlice t s2).
Proof.
  destruct s1 as [m1 tr1 ed1 n1 cur1 tm1 hp1 ps1 mt1 iq1 pl1].
  destruct s2 as [m2 tr2 ed2 n2 cur2 tm2 hp2 ps2 mt2 iq2 pl2].
  unfold sameButDocument at 1; cbn.
  intros (-> & -> & -> & -> & -> & -> & -> & -> & ->).
  destruct iq2 as [|task rest]; run; [by repeat split|].
  destruct (callParser (it_textModel task)
              (it_tree task ≫= (fun r => hp2 !! r)) (t * 1000))
    as [t'|e] eqn:Hcall.
  - rewrite !(runIdleCallback_normal _ _ _ t') by exact Hcall. run.
    destruct (ps2 !! it_resolve task) as [[]|]; by repeat split.
  - rewrite !(runIdleCallback_throw _ _ _ e) by exact Hcall. run.
    by repeat split.
Qed.

Lemma runFallback_normal (steps : list FallbackStep) (s1 s2 : St) :
  sameButDocument s1 s2 ->
  sameButDocument (runFallback steps s1)
    (runFallback (map Slice (slicesOf steps)) s2).
Proof.
  revert s1 s2. induction steps as [|[newModel changes|t] steps IH];
    intros s1 s2 Hsame; cbn.
  - done.
  - apply IH. eapply sameButDocument_trans; [|exact Hsame].
    apply mutate_sameButDocument.
  - apply IH. by apply idleSlice_sameButDocument.
Qed.

Lemma idleSlice_reads (t : Z) (s : St) :
  (exists calls,
     parseLog (idleSlice t s) = parseLog s ++ calls /\
     Forall (fun c => pc_model c ∈ snapshotsOf s) calls) /\
  (forall model, model ∈ snapshotsOf (idleSlice t s) -> model ∈ snapshotsOf s).
Proof.
  destruct s as [m tr ed n cur tm hp ps mt iq pl].
  unfold snapshotsOf. destruct iq as [|task rest]; run.
  { split; [exists []; by rewrite app_nil_r|done]. }
  destruct (callParser (it_textModel task)
              (it_tree task ≫= (fun r => hp !! r)) (t * 1000))
    as [t'|e] eqn:Hcall.
  - rewrite !(runIdleCallback_normal _ _ _ t') by exact Hcall. run. split.
    + eexists [_]. split.
      * destruct (ps !! it_resolve task) as [[]|]; reflexivity.
      * repeat constructor.
    + intros model Hin.
      rewrite elem_of_cons. right.
      by destruct (ps !! it_resolve task) as [[]|].
  - rewrite !(runIdleCallback_throw _ _ _ e) by exact Hcall. run. split.
    + eexists [_]. split; [reflexivity|]. repeat constructor.
    + intros model. rewrite fmap_app, elem_of_app, elem_of_cons. cbn.
      rewrite list_elem_of_singleton. intros [Hin| ->]; [by right|by left].
Qed.

Lemma mutate_reads (newModel : M) (changes : list Change) (s : St) :
  parseLog (act (ChangeContent newModel changes) s) = parseLog s /\
  snapshotsOf (act (ChangeContent newModel changes) s) = snapshotsOf s.
Proof. cbn [act]. rewrite registerTreeEdits_spec. by destruct s. Qed.

Lemma runFallback_reads (steps : list FallbackStep) (s : St) :
  (exists calls,
     parseLog (runFallback steps s) = parseLog s ++ calls /\
     Forall (fun c => pc_model c ∈ snapshotsOf s) calls) /\
  (forall model,
     model ∈ snapshotsOf (runFallback steps s) -> model ∈ snapshotsOf s).
Proof.
  revert s. induction steps as [|[newModel changes|t] steps IH]; intros s;
    cbn [runFallback fold_left fallbackStep].
  - split; [exists []; by rewrite app_nil_r|done].
  - destruct (mutate_reads newModel changes s) as [Hlog Hsnap].
    destruct (IH (act (ChangeContent newModel changes) s))
      as [(calls & Hcalls & Hbound) Hsub].
    unfold runFallback in *. rewrite Hlog, Hsnap in *. eauto.
  - destruct (idleSlice_reads t s) as [(calls1 & Hcalls1 & Hbound1) Hsub1].
    destruct (IH (idleSlice t s)) as [(calls2 & Hcalls2 & Hbound2) Hsub2].
    unfold runFallback in *. split.
    + exists (calls1 ++ calls2). split.
      * by rewrite Hcalls2, Hcalls1, app_assoc.
      * apply Forall_app. split; [done|].
        eapply Forall_impl; [exact Hbound2|]. cbn. eauto.
    + eauto.
Qed.

(** C7.  The catch block of [_tryParseSync] binds the idle callback it
    queues to a frozen copy of the live model.  From then on, two runs of
    document changes and idle slices that agree on their slices end in
    states that agree on everything but the live model and the buffered
    edits: same parser calls with the same outcomes, same trees, same
    promises.  Every parser call made in such a run reads from a model some
    queued callback was bound to at the start, and so does every callback
    queued at its end: a retry keeps the copy it was given. *)
Theorem snapshot_isolation (s : St) (asynchronous : bool)
    (steps1 steps2 : list FallbackStep) :
  slicesOf steps1 = slicesOf steps2 ->
  (forall task,
     task ∈ idleQueue (fst (_tryParseSync asynchronous s)) ->
     task ∈ idleQueue s \/ it_textModel task = frozenCopy (_model s)) /\
  sameButDocument (runFallback steps1 s) (runFallback steps2 s) /\
  (exists calls,
     parseLog (runFallback steps1 s) = parseLog s ++ calls /\
     Forall (fun c => pc_model c ∈ snapshotsOf s) calls) /\
  (forall task,
     task ∈ idleQueue (runFallback steps1 s) ->
     it_textModel task ∈ snapshotsOf s).
Proof.
  intros Hslices. split_and!.
  - intros task.
    destruct (callParser (_model s) (attemptBaseline s)
                (budgetOf asynchronous s)) as [t'|e] eqn:Hcall.
    + rewrite (tryParseSync_normal _ _ t') by exact Hcall.
      destruct s as [m tr ed n cur tm hp ps mt iq pl].
      destruct asynchronous, tr as [r|]; run; by left.
    + rewrite (tryParseSync_throw _ _ e) by exact Hcall.
      destruct s as [m tr ed n cur tm hp ps mt iq pl].
      destruct asynchronous, tr as [r|]; run;
        rewrite elem_of_app, list_elem_of_singleton;
        (intros [Hin| ->]; [by left|by right]).
  - eapply sameButDocument_trans.
    + apply runFallback_normal, sameButDocument_refl.
    + rewrite Hslices. apply sameButDocument_sym.
      apply runFallback_normal, sameButDocument_refl.
  - apply runFallback_reads.
  - intros task Htask. destruct (runFallback_reads steps1 s) as [_ Hsub].
    apply Hsub. unfold snapshotsOf. by apply list_elem_of_fmap_2.
Qed.

(** *** No rejection *)

Lemma noRejection_frame (s s' : St) :
  promises s' = promises s -> microtasks s' = microtasks s ->
  noRejection s -> noRejection s'.
Proof. unfold noRejection. by intros -> ->. Qed.

Ltac framed :=
  match goal with
  | H : noRejection ?s |- noRejection (_ ?s) =>
      apply (noRejection_frame s); [by destruct s|by destruct s|exact H]
  | H : noRejection ?s |- noRejection (_ _ ?s) =>
      apply (noRejection_frame s); [by destruct s|by destruct s|exact H]
  end.

Lemma noRejection_newPromise (st : PState) (s : St) :
  notRejected st -> noRejection s -> noRejection (fst (newPromise st s)).
Proof.
  intros Hst [Hp Hm]. destruct s. split; cbn in *; [|done].
  apply Forall_app. split; [done|]. by constructor.
Qed.

Lemma noRejection_enqueue (js : list Job) (s : St) :
  Forall notRejection js -> noRejection s -> noRejection (enqueue js s).
Proof.
  intros Hjs [Hp Hm]. destruct s. split; cbn in *; [done|].
  by apply Forall_app.
Qed.

Lemma noRejection_set_promises (p : PromiseId) (st : PState) (s : St) :
  notRejected st -> noRejection s ->
  noRejection (set_promises (<[p := st]> (promises s)) s).
Proof.
  intros Hst [Hp Hm]. destruct s. split; cbn in *; [|done].
  by apply Forall_insert.
Qed.

Lemma noRejection_promiseThen (p : PromiseId) (r : Reaction) (s : St) :
  noRejection s -> noRejection (promiseThen p r s).
Proof.
  intros Hs. unfold promiseThen.
  destruct (promises s !! p) as [[rs|v|e]|] eqn:Hlook.
  - by apply noRejection_set_promises.
  - apply noRejection_enqueue; [|done]. by repeat constructor.
  - destruct Hs as [Hp _]. rewrite Forall_lookup in Hp.
    by destruct (Hp _ _ Hlook).
  - done.
Qed.

Lemma noRejection_fulfil (p : PromiseId) (v : Value) (s : St) :
  noRejection s -> noRejection (fulfil p v s).
Proof.
  intros Hs. unfold fulfil.
  destruct (promises s !! p) as [[rs|v'|e]|] eqn:Hlook; try done.
  apply noRejection_enqueue.
  - apply Forall_fmap. by apply Forall_true.
  - by apply noRejection_set_promises.
Qed.

Lemma noRejection_resolveWithPromise (target thenable : PromiseId) (s : St) :
  noRejection s -> noRejection (resolveWithPromise target thenable s).
Proof. intros Hs. apply noRejection_enqueue; [|done]. by repeat constructor. Qed.

Lemma noRejection_updateAndGetTree (s : St) :
  noRejection s -> noRejection (fst (updateAndGetTree s)).
Proof.
  intros Hs. unfold updateAndGetTree. destruct (_tree s); [|done].
  cbn [fst]. apply (noRejection_frame s); by destruct s.
Qed.

Lemma noRejection_parse (model : M) (tree : option TreeRef) (s : St) :
  noRejection s -> noRejection (fst (parse model tree s)).
Proof.
  intros Hs. unfold parse.
  destruct (callParser _ _ _); cbn [fst];
    apply (noRejection_frame s); by destruct s.
Qed.

Lemma noRejection_parseAsync (textModel : M) (tree : option TreeRef) (s : St) :
  noRejection s -> noRejection (fst (_parseAsync textModel tree s)).
Proof.
  intros Hs. unfold _parseAsync.
  pose proof (noRejection_newPromise (Pending []) s I Hs) as Hn.
  destruct (newPromise _ s) as [s1 p]. cbn [fst] in *. framed.
Qed.

Lemma noRejection_runIdleCallback (task : IdleTask M) (t : Z) (s : St) :
  noRejection s -> noRejection (runIdleCallback task t s).
Proof.
  intros Hs. unfold runIdleCallback.
  assert (noRejection (setTimeoutMicros (t * 1000) s)) as Hs' by framed.
  pose proof (noRejection_parse (it_textModel task) (it_tree task) _ Hs')
    as Hparse.
  destruct (parse _ _ _) as [s1 [result|e]]; cbn [fst] in Hparse.
  - apply noRejection_fulfil. framed.
  - pose proof (noRejection_parseAsync (it_textModel task) (it_tree task)
                  s1 Hparse) as Hasync.
    destruct (_parseAsync _ _ s1) as [s2 p].
    by apply noRejection_promiseThen.
Qed.

Lemma noRejection_tryParseSync (asynchronous : bool) (s : St) :
  noRejection s -> noRejection (fst (_tryParseSync asynchronous s)).
Proof.
  intros Hs. unfold _tryParseSync.
  pose proof (noRejection_newPromise (Pending []) s I Hs) as H1.
  destruct (newPromise _ s) as [s1 self]; cbn [fst] in H1.
  assert (noRejection (if asynchronous then setTimeoutMicros 10000 s1 else s1))
    as H2 by (destruct asynchronous; [framed|done]).
  pose proof (noRejection_updateAndGetTree _ H2) as H3.
  destruct (updateAndGetTree _) as [s3 tree]; cbn [fst] in H3.
  pose proof (noRejection_parse (_model s3) tree s3 H3) as H4.
  destruct (parse _ _ s3) as [s4 [result|e]]; cbn [fst] in H4.
  - cbn [fst]. apply noRejection_fulfil. framed.
  - pose proof (noRejection_newPromise (Pending []) s4 I H4) as H5.
    destruct (newPromise _ s4) as [s5 outer]; cbn [fst] in H5.
    pose proof (noRejection_parseAsync
                  (setValue (createTextModel EmptyString) (createSnapshot (_model s4)))
                  tree s5 H5) as H6.
    destruct (_parseAsync _ _ s5) as [s6 inner]; cbn [fst] in *.
    by apply noRejection_resolveWithPromise, noRejection_promiseThen.
Qed.

Lemma noRejection_parseTree_inner (asynchronous : bool) (s : St) :
  noRejection s -> noRejection (fst (_parseTree asynchronous s)).
Proof.
  intros Hs. unfold _parseTree.
  pose proof (noRejection_newPromise (Pending []) s I Hs) as H1.
  destruct (newPromise _ s) as [s1 self]; cbn [fst] in H1.
  destruct (_currentParseOperation s1); cbn [fst].
  - by apply noRejection_promiseThen.
  - apply noRejection_enqueue; [|done]. by repeat constructor.
Qed.

Lemma noRejection_resumeParseTree (asynchronous : bool) (self : PromiseId)
    (s : St) :
  noRejection s -> noRejection (resumeParseTree asynchronous self s).
Proof.
  intros Hs. unfold resumeParseTree. destruct (needsParse s).
  - pose proof (noRejection_tryParseSync asynchronous s Hs) as H1.
    destruct (_tryParseSync _ s) as [s1 op]; cbn [fst] in H1.
    assert (noRejection (set_currentParseOperation (Some op) s1)) as H2
      by framed.
    pose proof (noRejection_newPromise (Pending []) _ I H2) as H3.
    destruct (newPromise _ _) as [s3 derived]; cbn [fst] in H3.
    pose proof (noRejection_promiseThen op
                  (AfterParse asynchronous op derived) s3 H3) as H4.
    assert (noRejection (incrementCalls (promiseThen op
              (AfterParse asynchronous op derived) s3))) as H5
      by (unfold incrementCalls; framed).
    destruct (_currentParseOperation _).
    + by apply noRejection_resolveWithPromise.
    + by apply noRejection_fulfil.
  - assert (noRejection (incrementCalls s)) as H1
      by (unfold incrementCalls; framed).
    destruct (_tree _); by apply noRejection_fulfil.
Qed.

Lemma noRejection_afterParse (asynchronous : bool) (op derived : PromiseId)
    (v : Value) (s : St) :
  noRejection s -> noRejection (afterParse asynchronous op derived v s).
Proof.
  intros Hs. unfold afterParse.
  assert (noRejection
            (if decide (_currentParseOperation s = Some op)
             then set_currentParseOperation None s else s)) as H1
    by (case_decide; [framed|done]).
  destruct (_edits _).
  - apply noRejection_fulfil. unfold incrementCalls. framed.
  - pose proof (noRejection_parseTree_inner asynchronous _ H1) as H2.
    destruct (_parseTree _ _) as [s2 p]; cbn [fst] in H2.
    by apply noRejection_resolveWithPromise.
Qed.

Lemma noRejection_parseTree (asynchronous : bool) (s : St) :
  noRejection s -> noRejection (fst (parseTree asynchronous s)).
Proof.
  intros Hs. unfold parseTree.
  pose proof (noRejection_newPromise (Pending []) s I Hs) as H1.
  destruct (newPromise _ s) as [s1 self]; cbn [fst] in H1.
  assert (noRejection (set_nCallsParseTree 0 s1)) as H2 by framed.
  pose proof (noRejection_parseTree_inner asynchronous _ H2) as H3.
  destruct (_parseTree _ _) as [s3 p]; cbn [fst] in *.
  by apply noRejection_resolveWithPromise.
Qed.

Lemma noRejection_parseTreeAndCountCalls (asynchronous : bool) (s : St) :
  noRejection s -> noRejection (fst (parseTreeAndCountCalls asynchronous s)).
Proof.
  intros Hs. unfold parseTreeAndCountCalls.
  pose proof (noRejection_newPromise (Pending []) s I Hs) as H1.
  destruct (newPromise _ s) as [s1 self]; cbn [fst] in H1.
  assert (noRejection (set_nCallsParseTree 0 s1)) as H2 by framed.
  pose proof (noRejection_parseTree_inner asynchronous _ H2) as H3.
  destruct (_parseTree _ _) as [s3 p]; cbn [fst] in H3.
  pose proof (noRejection_newPromise (Pending []) s3 I H3) as H4.
  destruct (newPromise _ s3) as [s4 derived]; cbn [fst] in *.
  by apply noRejection_resolveWithPromise, noRejection_promiseThen.
Qed.

Lemma noRejection_runJob (j : Job) (s : St) :
  notRejection j -> noRejection s -> noRejection (runJob j s).
Proof.
  intros Hj Hs. destruct j as [r v|r e|target thenable]; cbn [runJob].
  - destruct r; cbn [runFulfilled].
    + by apply noRejection_fulfil.
    + by apply noRejection_resumeParseTree.
    + by apply noRejection_afterParse.
    + apply noRejection_fulfil. destruct v; framed.
    + pose proof (noRejection_newPromise
                    (Fulfilled (VNumber (_nCallsParseTree s))) s I Hs) as H1.
      destruct (newPromise _ s) as [s1 q]; cbn [fst] in H1.
      by apply noRejection_resolveWithPromise.
    + destruct v; [done|framed|done].
  - done.
  - by apply noRejection_promiseThen.
Qed.

Lemma noRejection_drain (fuel : nat) (s : St) :
  noRejection s -> noRejection (drain fuel s).
Proof.
  revert s. induction fuel as [|fuel IH]; intros s Hs; [done|].
  rewrite drain_S. destruct (microtasks s) as [|j js] eqn:Hq; [done|].
  destruct Hs as [Hp Hm]. rewrite Hq in Hm.
  apply IH, noRejection_runJob; [by inversion Hm|].
  destruct s. split; cbn in *; [done|by inversion Hm].
Qed.

Lemma noRejection_act (a : Action) (s : St) :
  noRejection s -> noRejection (act a s).
Proof.
  intros Hs. destruct a; cbn [act].
  - by apply noRejection_parseTree.
  - by apply noRejection_parseTreeAndCountCalls.
  - rewrite registerTreeEdits_spec.
    apply (noRejection_frame s); by destruct s.
Qed.

Lemma noRejection_runTurn (fuel : nat) (t : Turn) (s : St) :
  noRejection s -> noRejection (runTurn fuel t s).
Proof.
  intros Hs. destruct t as [actions|timeRemaining]; cbn [runTurn];
    apply noRejection_drain.
  - unfold runScript. revert s Hs.
    induction actions as [|a actions IH]; intros s Hs; [done|].
    by apply IH, noRejection_act.
  - unfold idleSlice. destruct (idleQueue s) as [|task rest] eqn:Hq; [done|].
    apply noRejection_runIdleCallback. framed.
Qed.

Lemma reachable_noRejection (s : St) : reachable s -> noRejection s.
Proof.
  induction 1 as [model|fuel t s Hs IH].
  - unfold construct.
    assert (noRejection (mkState model None [] 0 None 0 [] [] [] [] []
                         : St)) as H0 by (by split).
    pose proof (noRejection_parseTree true _ H0) as H1.
    destruct (parseTree true _) as [s1 p]; cbn [fst] in H1.
    by apply noRejection_promiseThen.
  - by apply noRejection_runTurn.
Qed.

(** *** Retries of the fallback *)

Lemma drain_nil (fuel : nat) (s : St) : microtasks s = [] -> drain fuel s = s.
Proof. intros Hq. destruct fuel; [done|]. by rewrite drain_S, Hq. Qed.

Lemma drain_add (a b : nat) (s : St) :
  drain (a + b) s = drain b (drain a s).
Proof.
  revert s. induction a as [|a IH]; intros s; [done|].
  cbn [Nat.add]. rewrite !drain_S.
  destruct (microtasks s) eqn:Hq; [|apply IH].
  by rewrite drain_nil.
Qed.

Lemma drain_enough (a fuel : nat) (s : St) :
  (a <= fuel)%nat -> microtasks (drain a s) = [] -> drain fuel s = drain a s.
Proof.
  intros Hle Hq. replace fuel with (a + (fuel - a))%nat by lia.
  rewrite drain_add. by apply drain_nil.
Qed.

Lemma retryChain_length (q : PromiseId) (start n : nat) :
  length (retryChain q start n) = n.
Proof. revert q start. induction n; intros; cbn; [done|]. by rewrite IHn. Qed.

Lemma chainTop_shift (start n : nat) :
  chainTop start (S start) n = (start + n)%nat.
Proof. destruct n; cbn; lia. Qed.

Lemma retryChain_snoc (q : PromiseId) (start n : nat) :
  retryChain q start (S n)
  = retryChain q start n ++ [Pending [ResolveWith (chainTop q start n)]].
Proof.
  revert q start. induction n as [|n IH]; intros q start; [done|].
  change (retryChain q start (S (S n)))
    with (Pending [ResolveWith q] :: retryChain start (S start) (S n)).
  rewrite IH. cbn. by rewrite chainTop_shift.
Qed.

(** A slice whose parse throws queues the same closure again, on a fresh
    promise that forwards to the one it was to resolve. *)
Lemma failing_slice (task : IdleTask M) (t : Z) (e : ParseError) (s : St) :
  idleQueue s = [task] ->
  callParser (it_textModel task) (it_tree task ≫= (fun r => heap s !! r))
    (t * 1000) = Throw e ->
  idleSlice t s
  = set_idleQueue
      [mkIdleTask (it_textModel task) (it_tree task) (length (promises s))]
      (set_promises
         (promises s ++ [Pending [ResolveWith (it_resolve task)]])
         (set_parseLog
            (parseLog s ++
             [mkParseCall (it_textModel task)
                (it_tree task ≫= (fun r => heap s !! r)) (t * 1000)
                (Throw e)])
            (setTimeoutMicros (t * 1000) s))).
Proof.
  destruct s as [m tr ed n cur tm hp ps mt iq pl]; cbn [idleQueue heap].
  intros -> Hthrow. run.
  rewrite (runIdleCallback_throw _ _ _ e) by exact Hthrow.
  run. reflexivity.
Qed.

Lemma failing_slices (snap : M) (tree : option TreeRef) (q : PromiseId)
    (base : list PState) (fuel : nat) (ts : list Z) :
  forall (k : nat) (s : St),
    promises s = base ++ retryChain q (length base) k ->
    idleQueue s = [mkIdleTask snap tree (chainTop q (length base) k)] ->
    microtasks s = [] ->
    Forall
      (fun t =>
         exists e,
           callParser snap (tree ≫= (fun r => heap s !! r)) (t * 1000)
           = Throw e)
      ts ->
    let s' := runTurns fuel (map Idle ts) s in
    promises s' = base ++ retryChain q (length base) (k + length ts) /\
    idleQueue s'
    = [mkIdleTask snap tree (chainTop q (length base) (k + length ts))] /\
    microtasks s' = [] /\
    heap s' = heap s /\
    _tree s' = _tree s /\
    _edits s' = _edits s /\
    _model s' = _model s /\
    _currentParseOperation s' = _currentParseOperation s /\
    _nCallsParseTree s' = _nCallsParseTree s /\
    length (parseLog s') = (length (parseLog s) + length ts)%nat.
Proof.
  induction ts as [|t ts IH]; intros k s Hps Hiq Hmt Hall; cbn zeta.
  - cbn. rewrite !Nat.add_0_r. by repeat split.
  - inversion Hall as [|? ? [e He] Hall']; subst.
    cbn [map runTurns fold_left runTurn].
    rewrite (failing_slice _ t e s Hiq He).
    rewrite drain_nil by (by destruct s).
    match goal with |- context [fold_left _ _ ?s1] => set (s1' := s1) end.
    fold (runTurns fuel (map Idle ts) s1').
    assert (length base + k = length (promises s))%nat as Hlen
      by (rewrite Hps, length_app, retryChain_length; lia).
    destruct (IH (S k) s1') as (H1 & H2 & H3 & H4 & H5 & H6 & H7 & H8 & H9 & H10).
    + subst s1'. destruct s. cbn [promises] in Hps. subst. tidy.
      by rewrite retryChain_snoc, app_assoc.
    + subst s1'. destruct s. tidy. cbn [chainTop]. by rewrite Hlen.
    + subst s1'. by destruct s.
    + subst s1'. by destruct s.
    + replace (k + length (t :: ts))%nat with (S k + length ts)%nat
        by (cbn [length]; lia).
      rewrite H1, H2, H3, H4, H5, H6, H7, H8, H9, H10.
      subst s1'. destruct s. tidy. rewrite length_app. cbn [length].
      repeat split; lia.
Qed.

(** Fulfilling the top of a chain of retries fulfils every promise of the
    chain, one job each, and ends by fulfilling the promise at its foot. *)
Lemma drain_chain (v : Value) (n : nat) :
  forall (q : PromiseId) (base : list PState) (s : St),
    promises s = base ++ retryChain q (length base) n ->
    microtasks s = [] ->
    drain n (fulfil (chainTop q (length base) n) v s)
    = fulfil q v (set_promises (base ++ replicate n (Fulfilled v)) s).
Proof.
  induction n as [|n IH]; intros q base s Hps Hmt.
  - cbn in *. rewrite app_nil_r in *. rewrite <- Hps. by destruct s.
  - replace (S n) with (n + 1)%nat at 1 by lia. rewrite drain_add.
    change (chainTop q (length base) (S n)) with (length base + n)%nat.
    rewrite <- chainTop_shift.
    replace (S (length base))
      with (length (base ++ [Pending [ResolveWith q]]))
      by (rewrite length_app; cbn; lia).
    rewrite (IH (length base) (base ++ [Pending [ResolveWith q]]) s).
    + destruct s as [m tr ed c cur tm hp ps mt iq pl]; cbn in Hps, Hmt.
      subst. run. reflexivity.
    + rewrite Hps. cbn. rewrite <- app_assoc. cbn.
      by rewrite length_app, Nat.add_comm.
    + done.
Qed.

Lemma drain_for (a fuel : nat) (s s' : St) :
  drain a s = s' -> microtasks s' = [] -> (a <= fuel)%nat ->
  drain fuel s = s'.
Proof. intros <- Hq Hle. by apply drain_enough. Qed.

(** C9.  No reachable state holds a rejected promise.  When the attempt of
    a parse request throws, whatever the error, the request ends up waiting
    on an idle callback bound to a frozen copy of the model; as long as the
    slices throw, however many they are, the caller's promise stays pending
    and one callback for the same copy and the same old tree stays queued,
    one parser call per slice; the first slice that succeeds stores its tree
    and the caller's promise is fulfilled with it. *)
Theorem parse_failure_routes_to_fallback (s : St) (asynchronous : bool)
    (e : ParseError) (ts : list Z) (t_ok : Z) (tv : T) (fuel : nat) :
  needsParse s = true ->
  (_tree s = None -> _edits s = []) ->
  _currentParseOperation s = None ->
  microtasks s = [] ->
  idleQueue s = [] ->
  (length ts + 16 <= fuel)%nat ->
  callParser (_model s) (attemptBaseline s) (budgetOf asynchronous s)
  = Throw e ->
  Forall
    (fun t =>
       exists e',
         callParser (frozenCopy (_model s)) (attemptBaseline s) (t * 1000)
         = Throw e')
    ts ->
  callParser (frozenCopy (_model s)) (attemptBaseline s) (t_ok * 1000)
  = Normal tv ->
  let '(s1, p) := parseTree asynchronous s in
  let s2 := runTurns fuel (map Idle ts) (drain fuel s1) in
  let s3 := runTurn fuel (Idle t_ok) s2 in
  (forall s', reachable s' -> noRejection s') /\
  promises s2 !! p = Some (Pending []) /\
  (exists q,
     idleQueue s2 = [mkIdleTask (frozenCopy (_model s)) (_tree s) q]) /\
  length (parseLog s2) = (length (parseLog s) + 1 + length ts)%nat /\
  promises s3 !! p = Some (Fulfilled (VTree (length (heap s)))) /\
  heap s3 !! length (heap s) = Some tv /\
  _tree s3 = Some (length (heap s)) /\
  idleQueue s3 = [] /\
  microtasks s3 = [].
Proof.
  intros Hneeds Hfirst Hcur Hmt Hiq Hfuel Hthrow Hfail Hok.
  destruct s as [m tr ed n cur tm hp ps mt iq pl].
  cbn [_tree _edits _currentParseOperation microtasks idleQueue _model] in *.
  subst cur mt iq.
  assert (Hshape : (tr = None /\ ed = []) \/
                   (exists r e0 es, tr = Some r /\ ed = e0 :: es)).
  { destruct tr as [r|]; [|left; auto].
    destruct ed as [|e0 es]; [discriminate Hneeds|right; eauto]. }
  clear Hneeds Hfirst.
  destruct Hshape as [[-> ->]|(r & e0 & es & -> & ->)]; destruct asynchronous.
  all: run; split; [exact reachable_noRejection|].
  (* the attempt throws: the operation now waits on an idle callback *)
  all: erewrite (drain_for 16 fuel);
    [ | run; rewrite (tryParseSync_throw _ _ e) by exact Hthrow; run;
        reflexivity
      | reflexivity | lia ].
  (* the slices that throw *)
  all: match goal with
       | |- context [runTurns _ _ ?sA] =>
           destruct (failing_slices (frozenCopy m) (_tree sA)
                       (length ps + 4)%nat (promises sA) fuel ts 0 sA)
             as (H1 & H2 & H3 & H4 & H5 & H6 & H7 & H8 & H9 & H10);
           [by rewrite app_nil_r|reflexivity|reflexivity|exact Hfail|];
           set (s2 := runTurns fuel (map Idle ts) sA) in *
       end.
  all: clearbody s2;
    destruct s2 as [m2 tr2 ed2 n2 cur2 tm2 hp2 ps2 mt2 iq2 pl2];
    cbn [_model _tree _edits _nCallsParseTree _currentParseOperation
         timeoutMicros heap promises microtasks idleQueue parseLog
         Nat.add] in H1, H2, H3, H4, H5, H6, H7, H8, H9, H10;
    subst; rewrite length_app in H10; cbn [length] in H10.
  (* the slice that succeeds *)
  all: match goal with
       | |- context [runTurn _ _ ?x] => set (sB := x)
       end.
  all: eassert (runTurn fuel (Idle t_ok) sB = _) as ->;
    [ subst sB; cbn [runTurn];
      apply (drain_for (length ts + 16));
        [ step_call; tidy;
          rewrite (runIdleCallback_normal _ _ _ tv) by exact Hok; tidy;
          rewrite drain_add;
          rewrite (drain_chain (VTree _) (length ts) (length ps + 4))
            by reflexivity;
          run; reflexivity
        | reflexivity | lia ]
    | ].
  all: subst sB; rewrite ?applyEdits_length; split_and!.
  all: try reflexivity.
  all: try (run; reflexivity).
  all: try (eexists; reflexivity).
  all: try (cbn [parseLog]; lia).
  all: tidy; rewrite lookup_app_r by (rewrite applyEdits_length; lia).
  all: by rewrite applyEdits_length, Nat.sub_diag.
Qed.

(** *** Further properties of the engine *)

Lemma list_lookup_fresh0 {A} (ps l : list A) :
  list_lookup (length ps) (ps ++ l) = l !! 0%nat.
Proof. apply (lookup_fresh0 ps l). Qed.

Lemma list_insert_fresh0 {A} (ps l : list A) (x : A) :
  list_insert (length ps) x (ps ++ l) = ps ++ <[0%nat := x]> l.
Proof. apply (insert_fresh0 ps l x). Qed.

(** Following a run past a list whose length is not a numeral: the lookup
    left by the walk over the known cells is brought back to a form the
    rewrite rules apply to. *)
Ltac run_on :=
  repeat first
    [ progress run
    | progress
        change (@lookup nat ?A (list ?A) (@lookup _ _ _ ?i) ?n ?l)
          with (@list_lookup A n l)
    | progress
        change (@insert nat ?A (list ?A) (@insert _ _ _ ?i) ?n ?x ?l)
          with (@list_insert A n x l)
    | rewrite list_lookup_fresh0
    | rewrite list_insert_fresh0 ].

(** *** More on registerTreeEdits and updateAndGetTree *)

Lemma applyEdits_other (r k : TreeRef) (edits : list Edit) (h : list T) :
  k <> r -> applyEdits r edits h !! k = h !! k.
Proof.
  intros Hne. unfold applyEdits. revert h.
  induction edits as [|e edits IH]; intros h; [done|].
  cbn [fold_left]. rewrite IH. by apply list_lookup_alter_ne.
Qed.

Lemma applyEdits_app (r : TreeRef) (edits1 edits2 : list Edit) (h : list T) :
  applyEdits r (edits1 ++ edits2) h
  = applyEdits r edits2 (applyEdits r edits1 h).
Proof. unfold applyEdits. apply fold_left_app. Qed.

(** X1.  The listener only appends to the buffer: an event without changes does
    nothing, the changes of one event are recorded as if they had come one
    event each, and two events in a row record their edits in order, each
    against the model of its own event.  Nothing but the buffer is
    touched. *)
Theorem registerTreeEdits_appends (s : St) (changes1 changes2 : list Change)
    (model1 model2 : M) :
  registerTreeEdits [] s = s /\
  registerTreeEdits (changes1 ++ changes2) s
  = registerTreeEdits changes2 (registerTreeEdits changes1 s) /\
  _edits (act (ChangeContent model2 changes2)
            (act (ChangeContent model1 changes1) s))
  = _edits s ++ map (editOfChange model1) changes1
             ++ map (editOfChange model2) changes2 /\
  _model (registerTreeEdits changes1 s) = _model s /\
  sameButDocument (registerTreeEdits changes1 s) s /\
  length (_edits (registerTreeEdits changes1 s))
  = (length (_edits s) + length changes1)%nat.
Proof.
  split_and!.
  - reflexivity.
  - unfold registerTreeEdits. apply fold_left_app.
  - cbn [act]. rewrite !registerTreeEdits_spec. destruct s; cbn.
    by rewrite <- app_assoc.
  - rewrite registerTreeEdits_spec. by destruct s.
  - rewrite registerTreeEdits_spec. destruct s. by repeat split.
  - rewrite registerTreeEdits_spec. destruct s; cbn.
    by rewrite length_app, length_map.
Qed.

(** X2.  [updateAndGetTree] a second time changes nothing and returns the same
    tree: the first call has emptied the buffer, or there was no tree and
    nothing happened.  The call touches the buffer and the current tree
    object only: every other tree is left as it was, no tree is added or
    removed, and the live model, the counter, the budget, the promises and
    the queues stay the same. *)
Theorem updateAndGetTree_idempotent (s : St) :
  let s1 := fst (updateAndGetTree s) in
  let tree := snd (updateAndGetTree s) in
  updateAndGetTree s1 = (s1, tree) /\
  tree = _tree s /\
  _tree s1 = _tree s /\
  (forall k : TreeRef, Some k = _tree s \/ heap s1 !! k = heap s !! k) /\
  length (heap s1) = length (heap s) /\
  _model s1 = _model s /\
  sameButDocument s1 (set_heap (heap s1) s).
Proof.
  destruct s as [m [r|] ed n cur tm hp ps mt iq pl]; cbn.
  - split_and!; try reflexivity.
    + intros k. destruct (decide (k = r)) as [->|Hk]; [by left|right].
      by apply applyEdits_other.
    + apply applyEdits_length.
    + by repeat split.
  - split_and!; try reflexivity; [by right|by repeat split].
Qed.

(** X3.  Edits drained in two goes leave the tree object as one go over the
    whole buffer would: draining [edits1], then registering and draining
    [edits2], equals draining [edits1 ++ edits2]. *)
Theorem updateAndGetTree_batches (s : St) (r : TreeRef)
    (edits1 edits2 : list Edit) :
  _tree s = Some r ->
  updateAndGetTree
    (set_edits edits2 (fst (updateAndGetTree (set_edits edits1 s))))
  = updateAndGetTree (set_edits (edits1 ++ edits2) s).
Proof.
  destruct s as [m tr ed n cur tm hp ps mt iq pl]; cbn. intros ->.
  unfold updateAndGetTree; cbn. by rewrite applyEdits_app.
Qed.

(** *** Reading through the callback *)

Lemma substring_none (s : string) (n : nat) : substring n 0 s = EmptyString.
Proof. revert n. induction s as [|c s IH]; intros [|n]; cbn; auto. Qed.

Lemma substring_past (s : string) (n m : nat) :
  (String.length s <= n)%nat -> substring n m s = EmptyString.
Proof.
  revert n m. induction s as [|c s IH]; intros [|n] [|m] Hlen; cbn in *;
    try reflexivity; try lia; apply IH; lia.
Qed.

Lemma substring_length (s : string) :
  forall n m : nat,
    String.length (substring n m s) = Nat.min m (String.length s - n).
Proof.
  induction s as [|c s IH]; intros [|n] [|m]; cbn; try reflexivity.
  - by rewrite IH, Nat.sub_0_r.
  - apply IH.
  - apply IH.
Qed.

Lemma substring_append (s : string) :
  forall a n m : nat,
    (substring a n s ++ substring (a + n) m s)%string = substring a (n + m) s.
Proof.
  induction s as [|c s IH]; intros [|a] [|n] [|m]; cbn; try reflexivity.
  - change (String c (substring 0 n s +:+ substring (0 + n) 0 s)
            = String c (substring 0 (n + 0) s)).
    by rewrite IH.
  - change (String c (substring 0 n s +:+ substring (0 + n) (S m) s)
            = String c (substring 0 (n + S m) s)).
    by rewrite IH.
  - apply (IH a 0%nat 0%nat).
  - apply (IH a 0%nat (S m)).
  - apply (IH a (S n) 0%nat).
  - apply (IH a (S n) (S m)).
Qed.

Lemma substring_whole (s : string) : substring 0 (String.length s) s = s.
Proof. induction s as [|c s IH]; cbn; [done|]. by rewrite IH. Qed.

Section Reading.
Variable content : M -> string.
Hypothesis laws : TextModelLaws content.

Lemma retrieveText_chunk (m : M) (i : nat) (point : option Point) :
  _retrieveTextAtPosition m (Z.of_nat i) point None
  = substring i (Nat.min 5000 (String.length (content m) - i)) (content m).
Proof.
  unfold _retrieveTextAtPosition. rewrite (read_range _ laws) by lia.
  cbn zeta. rewrite Nat2Z.id.
  destruct (decide (i <= String.length (content m))%nat) as [Hle|Hgt].
  - f_equal; lia.
  - rewrite !substring_past by lia. done.
Qed.

Lemma readAll_suffix (m : M) (fuel : nat) :
  forall i : nat,
    (i <= String.length (content m))%nat ->
    (String.length (content m) - i <= 5000 * fuel)%nat ->
    ToyParser.readAll fuel
      (fun startIndex startPoint endIndex =>
         _retrieveTextAtPosition m startIndex startPoint endIndex)
      (Z.of_nat i)
    = substring i (String.length (content m) - i) (content m).
Proof.
  induction fuel as [|fuel IH]; intros i Hi Hlen.
  - replace (String.length (content m) - i)%nat with 0%nat by lia.
    by rewrite substring_none.
  - cbn [ToyParser.readAll]. rewrite retrieveText_chunk.
    remember (Nat.min 5000 (String.length (content m) - i)) as c eqn:Hcdef.
    pose proof (substring_length (content m) i c) as Hc.
    destruct (substring i c (content m)) as [|ch rest] eqn:Hchunk.
    + cbn [String.length] in Hc.
      replace (String.length (content m) - i)%nat with 0%nat by lia.
      by rewrite substring_none.
    + unfold textLength. rewrite Hc, <- Hchunk.
      replace (Nat.min c (String.length (content m) - i)) with c by lia.
      rewrite <- Nat2Z.inj_add, IH by lia.
      rewrite substring_append. f_equal. lia.
Qed.

(** X4.  On a model that keeps these laws, a read without end index at
    [startIndex] returns the text from there on, 5000 characters of it at
    most and all 5000 while that many are left; it returns the empty
    string exactly when [startIndex] is at or past the end.  A reader that
    starts at 0 and goes on from the end of each piece until it is handed
    the empty string has then read the whole text, piece after piece. *)
Theorem retrieveText_reads_the_text (m : M) (startIndex : Z)
    (startPoint : option Point) (fuel : nat) :
  0 <= startIndex ->
  let len := String.length (content m) in
  let chunk := _retrieveTextAtPosition m startIndex startPoint None in
  chunk
  = substring (Z.to_nat startIndex)
      (Nat.min 5000 (len - Z.to_nat startIndex)) (content m) /\
  String.length chunk = Nat.min 5000 (len - Z.to_nat startIndex) /\
  (chunk = EmptyString <-> Z.of_nat len <= startIndex) /\
  ((len <= 5000 * fuel)%nat ->
   ToyParser.readAll fuel
     (fun startIndex startPoint endIndex =>
        _retrieveTextAtPosition m startIndex startPoint endIndex) 0
   = content m).
Proof.
  intros Hstart len chunk.
  assert (chunk
          = substring (Z.to_nat startIndex)
              (Nat.min 5000 (len - Z.to_nat startIndex)) (content m))
    as Hchunk.
  { subst chunk. rewrite <- (Z2Nat.id startIndex) at 1 by exact Hstart.
    apply retrieveText_chunk. }
  assert (String.length chunk = Nat.min 5000 (len - Z.to_nat startIndex))
    as Hlen.
  { rewrite Hchunk, substring_length. subst len. lia. }
  split_and!; [exact Hchunk|exact Hlen| |].
  - clearbody chunk. subst len. split.
    + intros Hempty. rewrite Hempty in Hlen. cbn [String.length] in Hlen. lia.
    + intros Hpast. destruct chunk; [done|]. cbn [String.length] in Hlen.
      lia.
  - intros Hfuel.
    change 0 with (Z.of_nat 0).
    rewrite (readAll_suffix m fuel 0) by (subst len; lia).
    rewrite Nat.sub_0_r. apply substring_whole.
Qed.

(** X5.  The frozen copy built in the catch block holds the text the live model
    had then, and a read on it returns what the same read returns on that
    model. *)
Theorem frozenCopy_reads_alike (m : M) (startIndex : Z)
    (startPoint : option Point) (endIndex : option Z) :
  (forall n, endIndex = Some n -> startIndex <= n) ->
  content (frozenCopy m) = content m /\
  _retrieveTextAtPosition (frozenCopy m) startIndex startPoint endIndex
  = _retrieveTextAtPosition m startIndex startPoint endIndex.
Proof.
  intros Horder.
  assert (content (frozenCopy m) = content m) as Hsame.
  { unfold frozenCopy.
    by rewrite (setValue_text _ laws), (snapshot_text _ laws). }
  split; [exact Hsame|].
  unfold _retrieveTextAtPosition.
  assert (startIndex <= match endIndex with
                        | Some n => n
                        | None => startIndex + 5000
                        end) as Hle.
  { destruct endIndex as [n|]; [by apply Horder|lia]. }
  by rewrite !(read_range _ laws), Hsame by exact Hle.
Qed.

End Reading.

(** *** What a call does before it returns *)

Ltac split_lookup :=
  match goal with
  | |- context [match ?l !! ?k with _ => _ end] =>
      destruct (l !! k) as [[?|?|?]|] eqn:?
  end.

(** X6.  No public method parses before it returns: a request only queues its
    continuation, or registers it on the operation in flight, and the
    listener only extends the buffer.  Trees, parser log, budget, current
    tree, registered operation and idle callbacks are as before the call;
    a request leaves the buffer and the model alone as well. *)
Theorem calls_defer_parsing (a : Action) (s : St) :
  parseLog (act a s) = parseLog s /\
  heap (act a s) = heap s /\
  _tree (act a s) = _tree s /\
  timeoutMicros (act a s) = timeoutMicros s /\
  idleQueue (act a s) = idleQueue s /\
  _currentParseOperation (act a s) = _currentParseOperation s /\
  (exists edits, _edits (act a s) = _edits s ++ edits) /\
  (forall asynchronous,
     let s1 := act (CallParseTree asynchronous) s in
     let s2 := act (CallParseTreeAndCountCalls asynchronous) s in
     _edits s1 = _edits s /\ _model s1 = _model s /\
     _nCallsParseTree s1 = 0 /\
     _edits s2 = _edits s /\ _model s2 = _model s /\
     _nCallsParseTree s2 = 0).
Proof.
  destruct s as [m tr ed n cur tm hp ps mt iq pl].
  split_and!.
  8: { intros asynchronous; cbn [act]; destruct cur as [op|];
       repeat first [progress run | split_lookup]; by repeat split. }
  all: destruct a as [asynchronous'|asynchronous'|newModel changes];
    cbn [act]; rewrite ?registerTreeEdits_spec; destruct cur as [op|].
  all: try (repeat first [progress run | split_lookup]; reflexivity).
  all: try (exists []; repeat first [progress run | split_lookup];
            by rewrite app_nil_r).
  all: eexists; run; reflexivity.
Qed.

(** *** Runs that end well *)

(** X7.  The constructor does not parse: it leaves the engine without a tree and
    with its first request queued.  When that request's attempt succeeds,
    the microtasks that follow make one parser call, on the live model,
    without an old tree and under 10000 microseconds, store its tree, and
    leave the engine at rest: no operation registered, nothing queued. *)
Theorem constructor_settles (model : M) (t : T) (fuel : nat) :
  (16 <= fuel)%nat ->
  callParser model None 10000 = Normal t ->
  let s0 : St := construct model in
  let s := drain fuel s0 in
  _tree s0 = None /\
  parseLog s0 = [] /\
  _tree s = Some 0%nat /\
  heap s = [t] /\
  parseLog s = [mkParseCall model None 10000 (Normal t)] /\
  _edits s = [] /\
  _model s = model /\
  timeoutMicros s = 10000 /\
  _currentParseOperation s = None /\
  microtasks s = [] /\
  idleQueue s = [] /\
  Forall (fun st => st = Fulfilled (VTree 0)) (promises s).
Proof.
  intros Hfuel Hparse. cbn zeta.
  erewrite (drain_for 16 fuel);
    [ | unfold construct; run;
        rewrite (tryParseSync_normal _ _ t) by exact Hparse; run; reflexivity
      | reflexivity | exact Hfuel ].
  unfold construct. run. split_and!; try reflexivity.
  repeat constructor.
Qed.

(** X8.  A request made at rest with a tree and a non-empty buffer, when its
    attempt succeeds: the old tree object has the buffer applied to it, the
    parser is called once with it, the new tree becomes current and is what
    the caller gets, the buffer is empty and no operation stays registered.
    A second request is then answered with the same tree without a parser
    call. *)
Theorem parseTree_reparses (s : St) (asynchronous : bool) (r : TreeRef)
    (t t' : T) (e : Edit) (es : list Edit) (fuel : nat) :
  (16 <= fuel)%nat ->
  _tree s = Some r ->
  heap s !! r = Some t ->
  _edits s = e :: es ->
  _currentParseOperation s = None ->
  microtasks s = [] ->
  let baseline := fold_left tree_edit (e :: es) t in
  callParser (_model s) (Some baseline) (budgetOf asynchronous s)
  = Normal t' ->
  let '(s1, p1) := parseTree asynchronous s in
  let s2 := drain fuel s1 in
  let '(s3, p2) := parseTree asynchronous s2 in
  let s4 := drain fuel s3 in
  promises s2 !! p1 = Some (Fulfilled (VTree (length (heap s)))) /\
  _tree s2 = Some (length (heap s)) /\
  heap s2 = applyEdits r (e :: es) (heap s) ++ [t'] /\
  heap s2 !! r = Some baseline /\
  parseLog s2
  = parseLog s ++
    [mkParseCall (_model s) (Some baseline) (budgetOf asynchronous s)
       (Normal t')] /\
  _edits s2 = [] /\
  _currentParseOperation s2 = None /\
  microtasks s2 = [] /\
  idleQueue s2 = idleQueue s /\
  promises s4 !! p2 = Some (Fulfilled (VTree (length (heap s)))) /\
  parseLog s4 = parseLog s2 /\
  heap s4 = heap s2 /\
  _tree s4 = _tree s2.
Proof.
  intros Hfuel Htree Hheap Hedits Hcur Hmt baseline Hparse.
  destruct s as [m tr ed n cur tm hp ps mt iq pl].
  cbn [_tree _edits _currentParseOperation microtasks heap _model] in *.
  subst tr ed cur mt.
  pose proof (applyEdits_lookup r (e :: es) hp t Hheap) as Hbase.
  assert (r < length hp)%nat as Hr by (by eapply lookup_lt_Some).
  destruct asynchronous.
  all: run.
  all: erewrite (drain_for 16 fuel);
    [ | run; rewrite (tryParseSync_normal _ _ t')
              by (run; rewrite Hbase; exact Hparse);
        run; reflexivity
      | reflexivity | exact Hfuel ].
  all: run.
  all: erewrite (drain_for 16 fuel);
    [ | run; reflexivity | reflexivity | exact Hfuel ].
  all: run; rewrite ?applyEdits_length, ?Hbase.
  all: split_and!; try reflexivity.
  all: try (rewrite lookup_app_l by (rewrite applyEdits_length; lia);
            exact Hbase).
Qed.

(** X9.  When the document changes in the turn the engine is built in and both
    passes succeed, the second pass makes its tree current; then the
    constructor's own callback runs, with the tree of the first pass, and
    makes that one current again.  The engine comes to rest holding the
    first tree, to which the buffered edits were applied, and answers the
    next request with it without parsing. *)
Theorem constructor_restores_first_tree (model model' : M) (change : Change)
    (changes : list Change) (t1 t2 : T) (fuel : nat) :
  (32 <= fuel)%nat ->
  callParser model' None 10000 = Normal t1 ->
  let edits := map (editOfChange model') (change :: changes) in
  let baseline := fold_left tree_edit edits t1 in
  callParser model' (Some baseline) 10000 = Normal t2 ->
  let s : St :=
    drain fuel
      (runScript [ChangeContent model' (change :: changes)]
         (construct model)) in
  let '(s1, p) := parseTree true s in
  let s2 := drain fuel s1 in
  heap s = [baseline; t2] /\
  parseLog s
  = [mkParseCall model' None 10000 (Normal t1);
     mkParseCall model' (Some baseline) 10000 (Normal t2)] /\
  _tree s = Some 0%nat /\
  _edits s = [] /\
  _currentParseOperation s = None /\
  microtasks s = [] /\
  promises s2 !! p = Some (Fulfilled (VTree 0)) /\
  parseLog s2 = parseLog s /\
  _tree s2 = Some 0%nat.
Proof.
  intros Hfuel Hfirst edits baseline Hsecond.
  erewrite (drain_for 32 fuel);
    [ | unfold construct; cbn [runScript fold_left act]; run;
        rewrite registerTreeEdits_spec; run;
        rewrite (tryParseSync_normal _ _ t1) by (by run); run;
        rewrite (tryParseSync_normal _ _ t2)
          by (run; rewrite (applyEdits_lookup 0 _ [t1] t1) by reflexivity;
              exact Hsecond);
        run; reflexivity
      | reflexivity | exact Hfuel ].
  run.
  erewrite (drain_for 16 fuel);
    [ | run; reflexivity | reflexivity | lia ].
  run.
  match goal with
  | |- context [applyEdits 0 ?es [t1]] =>
      assert (applyEdits 0 es [t1] = [fold_left tree_edit es t1]) as Hheap
  end.
  { apply list_eq. intros [|k].
    - by rewrite (applyEdits_lookup 0 _ [t1] t1).
    - by rewrite applyEdits_other by lia. }
  rewrite Hheap. by split_and!.
Qed.

(** *** The counter is one field for all requests *)

(** X10.  The counter belongs to the object, not to the request: every request
    resets it when it is made and every pass adds to it.  A counted request
    followed in the same turn by another request, both answered from the
    current tree without a parser call, reports 2, the passes of both. *)
Theorem counter_is_shared (s : St) (asynchronous asynchronous' : bool)
    (r : TreeRef) (fuel : nat) :
  _tree s = Some r ->
  _edits s = [] ->
  _currentParseOperation s = None ->
  microtasks s = [] ->
  (16 <= fuel)%nat ->
  let '(s1, counted) := parseTreeAndCountCalls asynchronous s in
  let '(s2, other) := parseTree asynchronous' s1 in
  let s3 := drain fuel s2 in
  promises s3 !! counted = Some (Fulfilled (VNumber 2)) /\
  promises s3 !! other = Some (Fulfilled (VTree r)) /\
  parseLog s3 = parseLog s /\
  _nCallsParseTree s3 = 2 /\
  microtasks s3 = [].
Proof.
  intros Htree Hedits Hcur Hmt Hfuel.
  destruct s as [m tr ed n cur tm hp ps mt iq pl].
  cbn [_tree _edits _currentParseOperation microtasks] in *.
  subst tr ed cur mt.
  run.
  erewrite (drain_for 16 fuel);
    [ | run; reflexivity | reflexivity | exact Hfuel ].
  run. by split_and!.
Qed.

(** *** Requests that go through the fallback *)

(** X11.  The counter counts the passes of [_parseTree], not the parser calls: a
    counted request whose attempt throws reports 2 once a slice succeeds,
    however many slices have thrown before, each of them a parser call. *)
Theorem retries_are_not_counted (s : St) (asynchronous : bool)
    (e : ParseError) (ts : list Z) (t_ok : Z) (tv : T) (fuel : nat) :
  needsParse s = true ->
  (_tree s = None -> _edits s = []) ->
  _currentParseOperation s = None ->
  microtasks s = [] ->
  idleQueue s = [] ->
  (length ts + 24 <= fuel)%nat ->
  callParser (_model s) (attemptBaseline s) (budgetOf asynchronous s)
  = Throw e ->
  Forall
    (fun t =>
       exists e',
         callParser (frozenCopy (_model s)) (attemptBaseline s) (t * 1000)
         = Throw e')
    ts ->
  callParser (frozenCopy (_model s)) (attemptBaseline s) (t_ok * 1000)
  = Normal tv ->
  let '(s1, p) := parseTreeAndCountCalls asynchronous s in
  let s2 := runTurns fuel (map Idle ts) (drain fuel s1) in
  let s3 := runTurn fuel (Idle t_ok) s2 in
  promises s2 !! p = Some (Pending []) /\
  _nCallsParseTree s2 = 1 /\
  length (parseLog s2) = (length (parseLog s) + 1 + length ts)%nat /\
  promises s3 !! p = Some (Fulfilled (VNumber 2)) /\
  _nCallsParseTree s3 = 2 /\
  length (parseLog s3) = (length (parseLog s) + 2 + length ts)%nat /\
  microtasks s3 = [].
Proof.
  intros Hneeds Hfirst Hcur Hmt Hiq Hfuel Hthrow Hfail Hok.
  destruct s as [m tr ed n cur tm hp ps mt iq pl].
  cbn [_tree _edits _currentParseOperation microtasks idleQueue _model] in *.
  subst cur mt iq.
  assert (Hshape : (tr = None /\ ed = []) \/
                   (exists r e0 es, tr = Some r /\ ed = e0 :: es)).
  { destruct tr as [r|]; [|left; auto].
    destruct ed as [|e0 es]; [discriminate Hneeds|right; eauto]. }
  clear Hneeds Hfirst.
  destruct Hshape as [[-> ->]|(r & e0 & es & -> & ->)]; destruct asynchronous.
  all: run.
  all: erewrite (drain_for 16 fuel);
    [ | run; rewrite (tryParseSync_throw _ _ e) by exact Hthrow; run;
        reflexivity
      | reflexivity | lia ].
  all: match goal with
       | |- context [runTurns _ _ ?sA] =>
           destruct (failing_slices (frozenCopy m) (_tree sA)
                       (length ps + 5)%nat (promises sA) fuel ts 0 sA)
             as (H1 & H2 & H3 & H4 & H5 & H6 & H7 & H8 & H9 & H10);
           [by rewrite app_nil_r|reflexivity|reflexivity|exact Hfail|];
           set (s2 := runTurns fuel (map Idle ts) sA) in *
       end.
  all: clearbody s2;
    destruct s2 as [m2 tr2 ed2 n2 cur2 tm2 hp2 ps2 mt2 iq2 pl2];
    cbn [_model _tree _edits _nCallsParseTree _currentParseOperation
         timeoutMicros heap promises microtasks idleQueue parseLog
         Nat.add] in H1, H2, H3, H4, H5, H6, H7, H8, H9, H10;
    subst; rewrite length_app in H10; cbn [length] in H10.
  all: match goal with
       | |- context [runTurn _ _ ?x] => set (sB := x)
       end.
  all: eassert (runTurn fuel (Idle t_ok) sB = _) as ->;
    [ subst sB; cbn [runTurn];
      apply (drain_for (length ts + 24));
        [ step_call; tidy;
          rewrite (runIdleCallback_normal _ _ _ tv) by exact Hok; tidy;
          rewrite drain_add;
          rewrite (drain_chain (VTree _) (length ts) (length ps + 5))
            by reflexivity;
          run_on; reflexivity
        | reflexivity | lia ]
    | ].
  all: subst sB; split_and!.
  all: try reflexivity.
  all: try (run_on; reflexivity).
  all: try (tidy; rewrite ?length_app; cbn [length]; lia).
Qed.

(** X12.  A request made while an operation is registered waits for it: it calls
    no parser, and when the fallback of the first request produces its tree
    both requests are answered with that tree.  The parser has been called
    twice in all, for the attempt and for the slice. *)
Theorem request_waits_for_registered_operation (s : St)
    (asynchronous asynchronous' : bool) (e : ParseError) (t_ok : Z) (tv : T)
    (fuel : nat) :
  needsParse s = true ->
  (_tree s = None -> _edits s = []) ->
  _currentParseOperation s = None ->
  microtasks s = [] ->
  idleQueue s = [] ->
  (24 <= fuel)%nat ->
  callParser (_model s) (attemptBaseline s) (budgetOf asynchronous s)
  = Throw e ->
  callParser (frozenCopy (_model s)) (attemptBaseline s) (t_ok * 1000)
  = Normal tv ->
  let '(s1, p1) := parseTree asynchronous s in
  let s2 := drain fuel s1 in
  let '(s3, p2) := parseTree asynchronous' s2 in
  let s4 := drain fuel s3 in
  let s5 := runTurn fuel (Idle t_ok) s4 in
  (exists op reactions self,
     _currentParseOperation s4 = Some op /\
     promises s4 !! op
     = Some (Pending (reactions ++ [ParseTreeResume asynchronous' self]))) /\
  parseLog s4 = parseLog s2 /\
  length (idleQueue s4) = 1%nat /\
  promises s4 !! p1 = Some (Pending []) /\
  promises s4 !! p2 = Some (Pending []) /\
  length (parseLog s5) = (length (parseLog s) + 2)%nat /\
  promises s5 !! p1 = Some (Fulfilled (VTree (length (heap s)))) /\
  promises s5 !! p2 = Some (Fulfilled (VTree (length (heap s)))) /\
  _tree s5 = Some (length (heap s)) /\
  _currentParseOperation s5 = None /\
  idleQueue s5 = [] /\
  microtasks s5 = [].
Proof.
  intros Hneeds Hfirst Hcur Hmt Hiq Hfuel Hthrow Hok.
  destruct s as [m tr ed n cur tm hp ps mt iq pl].
  cbn [_tree _edits _currentParseOperation microtasks idleQueue _model] in *.
  subst cur mt iq.
  assert (Hshape : (tr = None /\ ed = []) \/
                   (exists r e0 es, tr = Some r /\ ed = e0 :: es)).
  { destruct tr as [r|]; [|left; auto].
    destruct ed as [|e0 es]; [discriminate Hneeds|right; eauto]. }
  clear Hneeds Hfirst.
  destruct Hshape as [[-> ->]|(r & e0 & es & -> & ->)]; destruct asynchronous.
  all: run.
  all: erewrite (drain_for 16 fuel);
    [ | run; rewrite (tryParseSync_throw _ _ e) by exact Hthrow; run;
        reflexivity
      | reflexivity | lia ].
  all: run.
  all: erewrite (drain_for 16 fuel);
    [ | run; reflexivity | reflexivity | lia ].
  all: cbn [runTurn];
    erewrite (drain_for 24 fuel);
    [ | step_call; tidy;
        rewrite (runIdleCallback_normal _ _ _ tv) by exact Hok; run;
        reflexivity
      | reflexivity | lia ].
  all: run; rewrite ?applyEdits_length; split_and!.
  all: try reflexivity.
  all: try (eexists _, [_; _], _; split;
            [reflexivity|rewrite lookup_fresh; reflexivity]).
  all: try (rewrite ?length_app; cbn [length]; lia).
Qed.

Lemma applyEdits_at (k : TreeRef) (edits : list Edit) (h : list T) (t : T) :
  length h = k ->
  applyEdits k edits (h ++ [t]) !! k = Some (fold_left tree_edit edits t).
Proof. intros <-. apply applyEdits_lookup. by rewrite lookup_fresh0. Qed.

Ltac sizes :=
  repeat first [rewrite applyEdits_length | rewrite length_app];
  cbn [length].

(** X13.  The document changes while a fallback is in progress.  When the slice
    succeeds, the callback on the operation finds the new edits and parses
    again, on the live model and with the fallback's tree, edited, as old
    tree; the tree of that parse becomes current.  The caller's promise is
    fulfilled with the fallback's tree all the same: the promise it was
    given follows the operation, not the parse that came after it. *)
Theorem edits_during_fallback (s : St) (asynchronous : bool)
    (e : ParseError) (newModel : M) (change : Change) (changes : list Change)
    (t_ok : Z) (tv t2 : T) (fuel : nat) :
  needsParse s = true ->
  (_tree s = None -> _edits s = []) ->
  _currentParseOperation s = None ->
  microtasks s = [] ->
  idleQueue s = [] ->
  (32 <= fuel)%nat ->
  callParser (_model s) (attemptBaseline s) (budgetOf asynchronous s)
  = Throw e ->
  callParser (frozenCopy (_model s)) (attemptBaseline s) (t_ok * 1000)
  = Normal tv ->
  let edits := map (editOfChange newModel) (change :: changes) in
  let baseline := fold_left tree_edit edits tv in
  let budget := if asynchronous then 10000 else t_ok * 1000 in
  callParser newModel (Some baseline) budget = Normal t2 ->
  let '(s1, p) := parseTree asynchronous s in
  let s2 :=
    runTurn fuel (Script [ChangeContent newModel (change :: changes)])
      (drain fuel s1) in
  let s3 := runTurn fuel (Idle t_ok) s2 in
  let fallbackTree := length (heap s) in
  _edits s2 = edits /\
  promises s2 !! p = Some (Pending []) /\
  promises s3 !! p = Some (Fulfilled (VTree fallbackTree)) /\
  heap s3 !! fallbackTree = Some baseline /\
  _tree s3 = Some (S fallbackTree) /\
  heap s3 !! S fallbackTree = Some t2 /\
  last (parseLog s3)
  = Some (mkParseCall newModel (Some baseline) budget (Normal t2)) /\
  length (parseLog s3) = (length (parseLog s) + 3)%nat /\
  _edits s3 = [] /\
  _currentParseOperation s3 = None /\
  microtasks s3 = [].
Proof.
  intros Hneeds Hfirst Hcur Hmt Hiq Hfuel Hthrow Hok edits baseline budget
    Hagain.
  destruct s as [m tr ed n cur tm hp ps mt iq pl].
  cbn [_tree _edits _currentParseOperation microtasks idleQueue _model] in *.
  subst cur mt iq.
  assert (Hshape : (tr = None /\ ed = []) \/
                   (exists r e0 es, tr = Some r /\ ed = e0 :: es)).
  { destruct tr as [r|]; [|left; auto].
    destruct ed as [|e0 es]; [discriminate Hneeds|right; eauto]. }
  clear Hneeds Hfirst.
  destruct Hshape as [[-> ->]|(r & e0 & es & -> & ->)]; destruct asynchronous.
  all: run.
  all: erewrite (drain_for 16 fuel);
    [ | run; rewrite (tryParseSync_throw _ _ e) by exact Hthrow; run;
        reflexivity
      | reflexivity | lia ].
  all: cbn [runTurn runScript fold_left act].
  all: rewrite registerTreeEdits_spec; run.
  all: rewrite drain_nil by reflexivity.
  all: erewrite (drain_for 32 fuel);
    [ | step_call; tidy;
        rewrite (runIdleCallback_normal _ _ _ tv) by exact Hok; run;
        rewrite (tryParseSync_normal _ _ t2)
          by (run; rewrite applyEdits_at by (by sizes);
              exact Hagain);
        run; reflexivity
      | reflexivity | lia ].
  all: run; rewrite ?applyEdits_length; split_and!.
  all: try reflexivity.
  all: try (rewrite ?length_app; cbn [length]; lia).
  all: try (rewrite lookup_app_l by (sizes; lia);
            apply applyEdits_at; by sizes).
  all: try (rewrite lookup_app_r by (sizes; lia); sizes;
            by replace (S (length hp) - (length hp + 1))%nat with 0%nat
              by lia).
  all: try (match goal with
            | |- last (?l ++ [?a; ?b; ?c]) = _ =>
                change (l ++ [a; b; c]) with (l ++ [a; b] ++ [c]);
                rewrite app_assoc, last_snoc
            end;
            rewrite applyEdits_at by (by sizes);
            reflexivity).
  all: try (sizes; f_equal; lia).
Qed.

(** *** Two requests in one turn *)

(** X14.  The owner asks for the tree in the turn the engine is built in: the
    constructor's request and the owner's both pass the [await] before
    either has registered an operation.  When the first attempt throws there
    is still no tree, so the second request makes an attempt of its own,
    under the same budget: two parser calls with the same outcome, two idle
    callbacks queued on two promises for copies of the same text. *)
Theorem same_turn_requests_both_attempt (model : M) (asynchronous : bool)
    (e : ParseError) (fuel : nat) :
  (16 <= fuel)%nat ->
  callParser model None 10000 = Throw e ->
  let '(s1, p) := parseTree asynchronous (construct model) in
  let s2 : St := drain fuel s1 in
  parseLog s2
  = [mkParseCall model None 10000 (Throw e);
     mkParseCall model None 10000 (Throw e)] /\
  (exists q q',
     q <> q' /\
     idleQueue s2
     = [mkIdleTask (frozenCopy model) None q;
        mkIdleTask (frozenCopy model) None q']) /\
  promises s2 !! p = Some (Pending []) /\
  _tree s2 = None /\
  heap s2 = [] /\
  microtasks s2 = [].
Proof.
  intros Hfuel Hthrow. unfold construct.
  destruct asynchronous.
  all: run.
  all: erewrite (drain_for 16 fuel);
    [ | run; rewrite (tryParseSync_throw _ _ e) by exact Hthrow; run;
        rewrite (tryParseSync_throw _ _ e) by exact Hthrow; run;
        reflexivity
      | reflexivity | lia ].
  all: run; split_and!; try reflexivity.
  all: eexists _, _; split; [|reflexivity]; lia.
Qed.

(** X15.  With a tree and a non-empty buffer the second request does not parse
    either, but it does not wait: the first attempt has emptied the buffer
    onto the tree before it threw, so the second request finds a tree and
    no edits and is answered at once with the old tree object, edited but
    not parsed again, while the first request waits for its fallback. *)
Theorem same_turn_request_gets_old_tree (s : St)
    (asynchronous asynchronous' : bool) (e : ParseError) (r : TreeRef)
    (t : T) (e0 : Edit) (es : list Edit) (fuel : nat) :
  _tree s = Some r ->
  heap s !! r = Some t ->
  _edits s = e0 :: es ->
  _currentParseOperation s = None ->
  microtasks s = [] ->
  idleQueue s = [] ->
  (16 <= fuel)%nat ->
  let baseline := fold_left tree_edit (e0 :: es) t in
  callParser (_model s) (Some baseline) (budgetOf asynchronous s) = Throw e ->
  let '(s1, p1) := parseTree asynchronous s in
  let '(s2, p2) := parseTree asynchronous' s1 in
  let s3 := drain fuel s2 in
  promises s3 !! p2 = Some (Fulfilled (VTree r)) /\
  heap s3 !! r = Some baseline /\
  length (heap s3) = length (heap s) /\
  promises s3 !! p1 = Some (Pending []) /\
  parseLog s3
  = parseLog s ++
    [mkParseCall (_model s) (Some baseline) (budgetOf asynchronous s)
       (Throw e)] /\
  idleQueue s3 = [mkIdleTask (frozenCopy (_model s)) (Some r)
                    (length (promises s) + 6)%nat] /\
  _tree s3 = Some r /\
  _edits s3 = [] /\
  microtasks s3 = [].
Proof.
  intros Htree Hheap Hedits Hcur Hmt Hiq Hfuel baseline Hthrow.
  destruct s as [m tr ed n cur tm hp ps mt iq pl].
  cbn [_tree _edits _currentParseOperation microtasks idleQueue _model heap]
    in *.
  subst tr ed cur mt iq.
  pose proof (applyEdits_lookup r (e0 :: es) hp t Hheap) as Hbase.
  destruct asynchronous.
  all: run.
  all: erewrite (drain_for 16 fuel);
    [ | run; rewrite (tryParseSync_throw _ _ e)
              by (run; rewrite Hbase; exact Hthrow);
        run; reflexivity
      | reflexivity | lia ].
  all: run; rewrite ?Hbase, ?applyEdits_length; split_and!; reflexivity.
Qed.

(** *** The budget the parser is left with *)

Lemma tryParseSync_attempt (asynchronous : bool) (s : St) :
  let budget := budgetOf asynchronous s in
  let s' := fst (_tryParseSync asynchronous s) in
  parseLog s'
  = parseLog s ++
    [mkParseCall (_model s) (attemptBaseline s) budget
       (callParser (_model s) (attemptBaseline s) budget)] /\
  timeoutMicros s' = budget.
Proof.
  cbn zeta.
  destruct (callParser (_model s) (attemptBaseline s)
              (budgetOf asynchronous s)) as [t'|e] eqn:Hcall.
  - rewrite (tryParseSync_normal _ _ t') by exact Hcall.
    destruct s as [m [r|] ed n cur tm hp ps mt iq pl], asynchronous; by run.
  - rewrite (tryParseSync_throw _ _ e) by exact Hcall.
    destruct s as [m [r|] ed n cur tm hp ps mt iq pl], asynchronous; by run.
Qed.

Lemma idleSlice_budget (task : IdleTask M) (rest : list (IdleTask M))
    (timeRemaining : Z) (s : St) :
  idleQueue s = task :: rest ->
  timeoutMicros (idleSlice timeRemaining s) = timeRemaining * 1000.
Proof.
  destruct s as [m tr ed n cur tm hp ps mt iq pl]. cbn [idleQueue].
  intros ->. run.
  destruct (callParser (it_textModel task)
              (it_tree task ≫= (fun r => hp !! r)) (timeRemaining * 1000))
    as [t'|e] eqn:Hcall.
  - rewrite (runIdleCallback_normal _ _ _ t') by exact Hcall. run.
    by destruct (ps !! it_resolve task) as [[]|].
  - rewrite (runIdleCallback_throw _ _ _ e) by exact Hcall. by run.
Qed.

(** X16.  The parser keeps the budget it was last given.  An asynchronous
    attempt runs under 10000 microseconds and an idle callback under the
    time its slice has left; a synchronous attempt sets nothing, so it runs
    under whatever the call before it left: 10000 after an asynchronous
    attempt, the slice's remaining time after an idle callback. *)
Theorem synchronous_attempt_inherits_budget (s : St) (task : IdleTask M)
    (rest : list (IdleTask M)) (timeRemaining : Z) :
  idleQueue s = task :: rest ->
  let budgetOfLast (s' : St) := pc_budget <$> last (parseLog s') in
  budgetOfLast (fst (_tryParseSync true s)) = Some 10000 /\
  budgetOfLast (fst (_tryParseSync false s)) = Some (timeoutMicros s) /\
  budgetOfLast (fst (_tryParseSync false (fst (_tryParseSync true s))))
  = Some 10000 /\
  budgetOfLast (idleSlice timeRemaining s) = Some (timeRemaining * 1000) /\
  budgetOfLast (fst (_tryParseSync false (idleSlice timeRemaining s)))
  = Some (timeRemaining * 1000).
Proof.
  intros Hqueue budgetOfLast. subst budgetOfLast. cbn beta.
  pose proof (fun a s => proj1 (tryParseSync_attempt a s)) as Hlog.
  pose proof (fun a s => proj2 (tryParseSync_attempt a s)) as Hleft.
  cbn zeta in Hlog, Hleft.
  rewrite !Hlog, !last_snoc.
  cbn [fmap option_fmap option_map pc_budget budgetOf].
  rewrite (Hleft true s), (idleSlice_budget task rest) by exact Hqueue.
  split_and!; try reflexivity.
  destruct s as [m tr ed n cur tm hp ps mt iq pl]. cbn [idleQueue] in Hqueue.
  subst iq. run.
  destruct (callParser (it_textModel task)
              (it_tree task ≫= (fun r => hp !! r)) (timeRemaining * 1000))
    as [t'|e] eqn:Hcall.
  - rewrite (runIdleCallback_normal _ _ _ t') by exact Hcall. run.
    destruct (ps !! it_resolve task) as [[]|]; run; by rewrite last_snoc.
  - rewrite (runIdleCallback_throw _ _ _ e) by exact Hcall. run.
    by rewrite last_snoc.
Qed.

(** *** After dispose *)

Lemma changeAll_disposed (events : list (M * list Change)) :
  forall o : Owned M T,
    listening o = false ->
    listening (changeAll events o) = false /\
    deletedTrees (changeAll events o) = deletedTrees o /\
    parserDeleted (changeAll events o) = parserDeleted o /\
    engine (changeAll events o)
    = set_model (default (_model (engine o)) (last (fst <$> events)))
        (engine o).
Proof.
  induction events as [|[newModel changes] events IH]; intros o Hoff.
  - cbn. split_and!; try done. by destruct (engine o).
  - cbn [changeAll fold_left fst snd].
    fold (changeAll events (onDidChangeContent newModel changes o)).
    destruct (IH (onDidChangeContent newModel changes o))
      as (H1 & H2 & H3 & H4).
    { unfold onDidChangeContent. by rewrite Hoff. }
    rewrite H1, H2, H3, H4. unfold onDidChangeContent. rewrite Hoff.
    cbn [engine listening deletedTrees parserDeleted]. repeat split.
    rewrite fmap_cons, last_cons. cbn [fst].
    destruct (last (fst <$> events)); destruct (engine o); reflexivity.
Qed.

(** X17.  [dispose] empties the buffer and unregisters the listener: whatever
    changes the document goes through afterwards, the buffer stays empty.
    Everything but the buffer and the live model is as it was when
    [dispose] was called; a second [dispose] changes nothing in the
    engine. *)
Theorem dispose_stops_recording (o : Owned M T)
    (events : list (M * list Change)) :
  let o' := changeAll events (dispose o) in
  _edits (engine (dispose o)) = [] /\
  _edits (engine o') = [] /\
  listening o' = false /\
  _model (engine o')
  = default (_model (engine o)) (last (fst <$> events)) /\
  sameButDocument (engine o') (engine o) /\
  engine (dispose (dispose o)) = engine (dispose o).
Proof.
  cbn zeta.
  destruct (changeAll_disposed events (dispose o) eq_refl)
    as (H1 & H2 & H3 & H4).
  rewrite H1, H4. destruct o as [s l d p]. cbn [dispose engine].
  destruct s. by repeat split.
Qed.

(** X18.  [dispose] deletes the current tree and the parser but leaves the field
    [_tree] as it is: a request made afterwards, at rest and with nothing
    buffered, is answered with the deleted tree, without a parser call. *)
Theorem request_after_dispose (o : Owned M T) (asynchronous : bool)
    (r : TreeRef) (fuel : nat) :
  _tree (engine o) = Some r ->
  _currentParseOperation (engine o) = None ->
  microtasks (engine o) = [] ->
  (16 <= fuel)%nat ->
  let o' := dispose o in
  let '(s1, p) := parseTree asynchronous (engine o') in
  let s2 := drain fuel s1 in
  r ∈ deletedTrees o' /\
  parserDeleted o' = true /\
  _tree (engine o') = Some r /\
  promises s2 !! p = Some (Fulfilled (VTree r)) /\
  parseLog s2 = parseLog (engine o) /\
  heap s2 = heap (engine o) /\
  microtasks s2 = [].
Proof.
  intros Htree Hcur Hmt Hfuel.
  destruct o as [s l d pd].
  destruct s as [m tr ed n cur tm hp ps mt iq pl].
  cbn [engine _tree _currentParseOperation microtasks] in *.
  subst tr cur mt. cbn [dispose engine _tree deletedTrees parserDeleted].
  run.
  erewrite (drain_for 16 fuel);
    [ | run; reflexivity | reflexivity | exact Hfuel ].
  run. split_and!; try reflexivity.
  rewrite elem_of_app, list_elem_of_singleton. by right.
Qed.

(** X19.  [dispose] cancels nothing: an idle callback queued by a fallback stays
    queued, and the next idle slice runs it, which calls the parser, by then
    deleted, on the copy the callback was bound to. *)
Theorem dispose_leaves_fallback_queued (o : Owned M T) (task : IdleTask M)
    (rest : list (IdleTask M)) (timeRemaining : Z) :
  idleQueue (engine o) = task :: rest ->
  let o' := dispose o in
  let s := idleSlice timeRemaining (engine o') in
  parserDeleted o' = true /\
  idleQueue (engine o') = task :: rest /\
  promises (engine o') = promises (engine o) /\
  _currentParseOperation (engine o') = _currentParseOperation (engine o) /\
  exists outcome,
    parseLog s
    = parseLog (engine o) ++
      [mkParseCall (it_textModel task)
         (it_tree task ≫= (fun r => heap (engine o) !! r))
         (timeRemaining * 1000) outcome].
Proof.
  intros Hqueue.
  destruct o as [s l d pd].
  destruct s as [m tr ed n cur tm hp ps mt iq pl].
  cbn [engine idleQueue] in *. subst iq.
  cbn [dispose engine parserDeleted]. run. split_and!; try reflexivity.
  destruct (callParser (it_textModel task)
              (it_tree task ≫= (fun r => hp !! r)) (timeRemaining * 1000))
    as [t'|e] eqn:Hcall.
  - rewrite (runIdleCallback_normal _ _ _ t') by exact Hcall. run.
    exists (Normal t'). by destruct (ps !! it_resolve task) as [[]|].
  - rewrite (runIdleCallback_throw _ _ _ e) by exact Hcall. run.
    by exists (Throw e).
Qed.

End Properties.

(** ** The properties on concrete engines *)

Import StringModel ToyParser Scenario.

(** The engines of [Scenario] are states an engine can be in. *)
Lemma settled_reachable : reachable settled.
Proof.
  change settled with (runTurn 16 (Script []) (construct "ab")).
  apply reachable_turn, reachable_construct.
Qed.

Lemma waiting_reachable : reachable waiting.
Proof. apply reachable_turn, settled_reachable. Qed.

Lemma afterFallback_reachable : reachable afterFallback.
Proof. do 2 apply reachable_turn. apply waiting_reachable. Qed.

Lemma synchronousRequest_reachable : reachable synchronousRequest.
Proof. apply reachable_turn, settled_reachable. Qed.

Lemma twoRequests_reachable : reachable twoRequests.
Proof. apply reachable_turn, reachable_construct. Qed.

(** The position of an offset is not before the position the walk starts
    from. *)
Lemma positionAt_from (s : string) :
  forall (n : nat) (line col : Z),
    line < Position.lineNumber (positionAt s n line col) \/
    (line = Position.lineNumber (positionAt s n line col) /\
     col <= Position.column (positionAt s n line col)).
Proof.
  induction s as [|c rest IH]; intros [|n] line col; cbn;
    try (right; split; [reflexivity | lia]).
  destruct (isLineFeed c).
  - destruct (IH n (line + 1) 1) as [H | [H _]]; left; lia.
  - destruct (IH n line (col + 1)) as [H | [H1 H2]]; [left | right]; lia.
Qed.

(** Offsets and positions of the string model agree, up to the length of
    the text. *)
Lemma offsetOf_positionAt (s : string) :
  forall (n : nat) (line col : Z),
    offsetOf s (Position.lineNumber (positionAt s n line col))
      (Position.column (positionAt s n line col)) line col
    = Nat.min n (String.length s).
Proof.
  assert (Hhere : forall line col, reached line col line col = true).
  { intros line col. unfold reached.
    rewrite Z.eqb_refl, (proj2 (Z.leb_le col col)) by lia.
    by rewrite orb_true_r. }
  induction s as [|c rest IH]; intros [|n] line col; cbn;
    rewrite ?Hhere; try reflexivity.
  destruct (isLineFeed c) eqn:Hc.
  - pose proof (positionAt_from rest n (line + 1) 1) as Hfrom.
    replace (reached line col _ _) with false; [by rewrite IH|].
    symmetry. unfold reached. apply orb_false_iff. split.
    + apply Z.ltb_ge. lia.
    + apply andb_false_iff. left. apply Z.eqb_neq. lia.
  - pose proof (positionAt_from rest n line (col + 1)) as Hfrom.
    replace (reached line col _ _) with false; [by rewrite IH|].
    symmetry. unfold reached. apply orb_false_iff. split.
    + apply Z.ltb_ge. lia.
    + apply andb_false_iff.
      destruct Hfrom as [H | [H1 H2]];
        [left; apply Z.eqb_neq | right; apply Z.leb_gt]; lia.
Qed.

Lemma substring_length_le (s : string) :
  forall n m : nat, (String.length (substring n m s) <= m)%nat.
Proof.
  induction s as [|c rest IH]; intros [|n] [|m]; cbn; try lia.
  - specialize (IH 0%nat m). lia.
  - apply (IH n 0%nat).
  - apply (IH n (S m)).
Qed.

(** C6.  Without an end index the callback returns the text of its model
    between the positions of [startIndex] and of [startIndex + 5000]; an end
    index that is given is used as it is.  On the string model this is the
    piece of the text between these two offsets, cut at the end of the
    text: at most 5000 characters. *)
Theorem retrieveText_default_chunk :
  (forall (M : Type) (MI : ITextModel M) (model : M) (startIndex : Z)
          (startPoint : option Point),
     _retrieveTextAtPosition model startIndex startPoint None
     = getValueInRange model
         (Range.fromPositions (getPositionAt model startIndex)
            (getPositionAt model (startIndex + 5000)))) /\
  (forall (M : Type) (MI : ITextModel M) (model : M)
          (startIndex endIndex : Z) (startPoint : option Point),
     _retrieveTextAtPosition model startIndex startPoint (Some endIndex)
     = getValueInRange model
         (Range.fromPositions (getPositionAt model startIndex)
            (getPositionAt model endIndex))) /\
  (forall (text : string) (startIndex : Z) (startPoint : option Point),
     let first := Nat.min (Z.to_nat startIndex) (String.length text) in
     let last :=
       Nat.min (Z.to_nat (startIndex + 5000)) (String.length text) in
     _retrieveTextAtPosition text startIndex startPoint None
     = substring first (last - first) text /\
     (String.length (_retrieveTextAtPosition text startIndex startPoint None)
      <= 5000)%nat).
Proof.
  split_and!; [reflexivity | reflexivity |].
  intros text startIndex startPoint first last.
  assert (Hchunk : _retrieveTextAtPosition text startIndex startPoint None
                   = substring first (last - first) text).
  { unfold _retrieveTextAtPosition, getValueInRange, getPositionAt; cbn.
    unfold valueInRange; cbn. by rewrite !offsetOf_positionAt. }
  split; [exact Hchunk|]. rewrite Hchunk.
  etrans; [apply substring_length_le|]. subst first last. lia.
Qed.

(** C1, on the code.  The request of [waiting] falls back; the document
    changes while the fallback is in progress.  The engine does parse again
    once the fallback is done; but the promise handed to the caller is
    fulfilled with the tree the fallback produced from its frozen copy
    [abcdef]: [_parseTree] returns [myParseOperation] itself, and the promise
    derived by [then], which carries the later parse, is dropped.  When the
    later parse succeeds at once the engine holds its tree, of [abcde], and
    the caller holds the older one; when it exceeds its budget the caller's
    promise is fulfilled while that parse is still waiting for an idle
    slice. *)
Theorem fallback_result_misses_later_edits :
  reachable afterFallback /\
  promises waiting !! request = Some (Pending []) /\
  _edits editedMeanwhile <> [] /\
  _model afterFallback = "abcde" /\
  promises afterFallback !! request = Some (Fulfilled (VTree 1)) /\
  heap afterFallback !! 1%nat = Some (mkToyTree "abcdef" 5) /\
  _tree afterFallback = Some 2%nat /\
  heap afterFallback !! 2%nat = Some (mkToyTree "abcde" 5) /\
  map pc_model (parseLog afterFallback) = ["ab"; "abcdef"; "abcdef"; "abcde"] /\
  _model afterFallbackAgain = "abcdefg" /\
  promises afterFallbackAgain !! request = Some (Fulfilled (VTree 1)) /\
  heap afterFallbackAgain !! 1%nat = Some (mkToyTree "abcdef" 7) /\
  map it_textModel (idleQueue afterFallbackAgain) = ["abcdefg"].
Proof.
  split; [exact afterFallback_reachable|]. vm_compute. by repeat split.
Qed.

(** C3, on the code.  The constructor's own request has set a budget of
    10000 microseconds on the parser; a later synchronous request does not
    clear it, so its attempt on [abcdef] runs under that budget and fails on
    time. *)
Theorem synchronous_mode_keeps_budget :
  reachable synchronousRequest /\
  timeoutMicros settled = 10000 /\
  last (parseLog synchronousRequest)
  = Some (mkParseCall "abcdef" (Some (mkToyTree "ab" 6)) 10000
            (Throw TimeBudgetExceeded)) /\
  toy_parse (fun i p e => _retrieveTextAtPosition "abcdef" i p e)
    (Some (mkToyTree "ab" 6)) 0
  = Normal (mkToyTree "abcdef" 6).
Proof.
  split; [exact synchronousRequest_reachable|]. vm_compute. by repeat split.
Qed.

(** C8, on the code.  The constructor requests a parse, and the owner asks
    for the tree in the same turn.  Both requests pass the [await] before
    either has registered its operation; the first attempt exceeds its
    budget and leaves no tree, so the second request starts an attempt of
    its own: two parser calls, and two fallbacks in flight at once. *)
Theorem two_requests_two_operations :
  reachable twoRequests /\
  length (parseLog built) = 0%nat /\
  length (parseLog twoRequests) = 2%nat /\
  length (idleQueue twoRequests) = 2%nat /\
  map it_resolve (idleQueue twoRequests) = [6%nat; 10%nat] /\
  promises twoRequests !! 6%nat = Some (Pending [FallbackDone 5]) /\
  promises twoRequests !! 10%nat = Some (Pending [FallbackDone 9]) /\
  _currentParseOperation twoRequests = Some 8%nat.
Proof.
  split; [exact twoRequests_reachable|]. vm_compute. by repeat split.
Qed.


(** A conclusion of a theorem and the same statement on evaluated terms are
    compared after both have been evaluated. *)
Ltac evaluated H := vm_compute in H |- *; exact H.


Lemma registerTreeEdits_edits_witness :
  let s := set_model "abc" settled in
  let change := insertAt 2 "c" in
  Forall (fun change => 0 <= rangeLength change) [change] /\
  _edits (registerTreeEdits [change] s)
  = _edits s ++ [mkEdit (mkPoint 0 2) (mkPoint 0 2) (mkPoint 0 3) 2 2 3] /\
  startIndex (editOfChange "abc" change)
  <= oldEndIndex (editOfChange "abc" change) /\
  startIndex (editOfChange "abc" change)
  <= newEndIndex (editOfChange "abc" change).
Proof.
  assert (Forall (fun change => 0 <= rangeLength change) [insertAt 2 "c"])
    as Hlen by (repeat constructor; vm_compute; discriminate).
  destruct (registerTreeEdits_edits (set_model "abc" settled)
              [insertAt 2 "c"] Hlen) as (Happend & _ & Hall).
  apply Forall_inv in Hall. destruct Hall as (Hold & Hnew & _).
  split_and!.
  - exact Hlen.
  - evaluated Happend.
  - exact Hold.
  - exact Hnew.
Defined.


Lemma snapshot_isolation_witness :
  let quiet := [Slice 1; Slice 50] in
  let busy :=
    [Mutate "abcde" [deleteAt 5 1]; Slice 1;
     Mutate "abcd" [deleteAt 4 1]; Slice 50] in
  slicesOf quiet = slicesOf busy /\
  snapshotsOf waiting = ["abcdef"] /\
  _model (runFallback busy waiting) = "abcd" /\
  sameButDocument (runFallback quiet waiting) (runFallback busy waiting) /\
  map pc_model (parseLog (runFallback busy waiting))
  = ["ab"; "abcdef"; "abcdef"; "abcdef"] /\
  (forall task,
     task ∈ idleQueue (fst (_tryParseSync true grown)) ->
     task ∈ idleQueue grown \/ it_textModel task = frozenCopy (_model grown)).
Proof.
  destruct (snapshot_isolation waiting true
              [Slice 1; Slice 50]
              [Mutate "abcde" [deleteAt 5 1]; Slice 1;
               Mutate "abcd" [deleteAt 4 1]; Slice 50] eq_refl)
    as (_ & Hsame & _ & _).
  destruct (snapshot_isolation grown true [] [] eq_refl)
    as (Hcapture & _ & _ & _).
  split_and!.
  - reflexivity.
  - reflexivity.
  - reflexivity.
  - exact Hsame.
  - reflexivity.
  - exact Hcapture.
Defined.

Lemma parse_failure_routes_to_fallback_witness :
  let tree := mkToyTree "abcdefg" 7 in
  needsParse grown = true /\
  (_tree grown = None -> _edits grown = []) /\
  _currentParseOperation grown = None /\
  microtasks grown = [] /\
  idleQueue grown = [] /\
  callParser (_model grown) (attemptBaseline grown) (budgetOf true grown)
  = Throw TimeBudgetExceeded /\
  Forall
    (fun t =>
       exists e',
         callParser (frozenCopy (_model grown)) (attemptBaseline grown)
           (t * 1000) = Throw e')
    [1; 2] /\
  callParser (frozenCopy (_model grown)) (attemptBaseline grown) (50 * 1000)
  = Normal tree /\
  (let '(started, request) := parseTree true grown in
   let retried := runTurns 18 [Idle 1; Idle 2] (drain 18 started) in
   let finished := runTurn 18 (Idle 50) retried in
   promises retried !! request = Some (Pending []) /\
   length (parseLog retried) = 4%nat /\
   promises finished !! request = Some (Fulfilled (VTree (length (heap grown)))) /\
   heap finished !! length (heap grown) = Some tree /\
   _tree finished = Some (length (heap grown))).
Proof.
  assert (Forall
            (fun t =>
               exists e',
                 callParser (frozenCopy (_model grown)) (attemptBaseline grown)
                   (t * 1000) = Throw e')
            [1; 2]) as Hfail
    by (repeat constructor; exists TimeBudgetExceeded; vm_compute;
        reflexivity).
  assert (_tree grown = None -> _edits grown = []) as Hfirst
    by (intros Hnone; vm_compute in Hnone; discriminate Hnone).
  assert (needsParse grown = true) as Hneeds by (vm_compute; reflexivity).
  assert (_currentParseOperation grown = None) as Hcur
    by (vm_compute; reflexivity).
  assert (microtasks grown = []) as Hqueue by (vm_compute; reflexivity).
  assert (idleQueue grown = []) as Hidle by (vm_compute; reflexivity).
  assert (callParser (_model grown) (attemptBaseline grown)
            (budgetOf true grown) = Throw TimeBudgetExceeded) as Hthrow
    by (vm_compute; reflexivity).
  assert (callParser (frozenCopy (_model grown)) (attemptBaseline grown)
            (50 * 1000) = Normal (mkToyTree "abcdefg" 7)) as Hok
    by (vm_compute; reflexivity).
  pose proof (parse_failure_routes_to_fallback grown true TimeBudgetExceeded
                [1; 2] 50 (mkToyTree "abcdefg" 7) 18
                Hneeds Hfirst Hcur Hqueue Hidle (le_n 18) Hthrow Hfail Hok)
    as Hrun.
  split_and!;
    [exact Hneeds|exact Hfirst|exact Hcur|exact Hqueue|exact Hidle
    |exact Hthrow|exact Hfail|exact Hok| ].
  revert Hrun. generalize (parseTree true grown). intros [s1 p].
  cbn zeta. cbn [map length].
  intros (_ & Hpending & _ & Hcalls & Hdone & Hheap & Htree & _ & _).
  split_and!.
  - exact Hpending.
  - rewrite Hcalls. f_equal.
  - exact Hdone.
  - exact Hheap.
  - exact Htree.
Defined.

Lemma first_parse_keeps_edits_witness :
  let tree := mkToyTree "abc" 3 in
  let edit := editOfChange "abc" (insertAt 2 "c") in
  _tree changedAtBirth = None /\
  updateAndGetTree changedAtBirth = (changedAtBirth, None) /\
  _edits (fst (_tryParseSync true changedAtBirth)) = _edits changedAtBirth /\
  _edits changedAtBirth = [edit] /\
  callParser "abc" None 10000 = Normal tree /\
  parseLog (drain 16 changedAtBirth)
  = [mkParseCall "abc" None 10000 (Normal tree);
     mkParseCall "abc" (Some (mkToyTree "abc" 4)) 10000 (Normal tree)] /\
  _edits (drain 16 changedAtBirth) = [].
Proof.
  destruct (first_parse_keeps_edits changedAtBirth true eq_refl)
    as (Hnothing & Hkept & Hsecond & _).
  destruct (Hsecond "ab" "abc" (insertAt 2 "c") [] (mkToyTree "abc" 3)
              eq_refl) as [Hlog Hdrained].
  split_and!.
  - reflexivity.
  - exact Hnothing.
  - exact Hkept.
  - reflexivity.
  - reflexivity.
  - evaluated Hlog.
  - evaluated Hdrained.
Defined.

(** ** The further properties on concrete engines *)

(** The string model keeps the laws of a text model, its text being the
    string itself. *)
Lemma stringModel_laws : TextModelLaws (fun text : string => text).
Proof.
  split.
  - intros text a b _. unfold getValueInRange, getPositionAt; cbn.
    unfold valueInRange; cbn. by rewrite !offsetOf_positionAt.
  - reflexivity.
  - reflexivity.
Qed.

Lemma updateAndGetTree_batches_witness :
  let first := editOfChange "xyzab" (insertAt 0 "xyz") in
  let second := editOfChange "xyzb" (deleteAt 3 1) in
  _tree settled = Some 0%nat /\
  updateAndGetTree
    (set_edits [second] (fst (updateAndGetTree (set_edits [first] settled))))
  = updateAndGetTree (set_edits [first; second] settled) /\
  heap (fst (updateAndGetTree (set_edits [first; second] settled)))
  = [mkToyTree "ab" 4].
Proof.
  assert (_tree settled = Some 0%nat) as Htree by (vm_compute; reflexivity).
  pose proof (updateAndGetTree_batches settled 0
                [editOfChange "xyzab" (insertAt 0 "xyz")]
                [editOfChange "xyzb" (deleteAt 3 1)] Htree) as Hbatches.
  split_and!; [exact Htree|exact Hbatches|vm_compute; reflexivity].
Defined.

Lemma constructor_settles_witness :
  let tree := mkToyTree "ab" 2 in
  (16 <= 16)%nat /\
  callParser "ab" None 10000 = Normal tree /\
  _tree settled = Some 0%nat /\
  heap settled = [tree] /\
  parseLog settled = [mkParseCall "ab" None 10000 (Normal tree)] /\
  _currentParseOperation settled = None /\
  microtasks settled = [].
Proof.
  assert (callParser "ab" None 10000 = Normal (mkToyTree "ab" 2)) as Hparse
    by (vm_compute; reflexivity).
  destruct (constructor_settles "ab" (mkToyTree "ab" 2) 16 (le_n 16) Hparse)
    as (_ & _ & Htree & Hheap & Hlog & _ & _ & _ & Hcur & Hqueue & _).
  split_and!; [lia|exact Hparse|exact Htree|exact Hheap|exact Hlog
              |exact Hcur|exact Hqueue].
Defined.

Lemma parseTree_reparses_witness :
  let first := editOfChange "xyzab" (insertAt 0 "xyz") in
  let second := editOfChange "xyzb" (deleteAt 3 1) in
  let old := mkToyTree "ab" 2 in
  let new := mkToyTree "xyzb" 4 in
  _tree twoEdits = Some 0%nat /\
  heap twoEdits !! 0%nat = Some old /\
  _edits twoEdits = [first; second] /\
  _currentParseOperation twoEdits = None /\
  microtasks twoEdits = [] /\
  callParser (_model twoEdits) (Some (fold_left tree_edit [first; second] old))
    (budgetOf true twoEdits) = Normal new /\
  (let '(s1, p1) := parseTree true twoEdits in
   let s2 := drain 16 s1 in
   let '(s3, p2) := parseTree true s2 in
   let s4 := drain 16 s3 in
   promises s2 !! p1 = Some (Fulfilled (VTree (length (heap twoEdits)))) /\
   _tree s2 = Some (length (heap twoEdits)) /\
   heap s2 !! 0%nat = Some (fold_left tree_edit [first; second] old) /\
   _edits s2 = [] /\
   promises s4 !! p2 = Some (Fulfilled (VTree (length (heap twoEdits)))) /\
   parseLog s4 = parseLog s2).
Proof.
  assert (_tree twoEdits = Some 0%nat) as Htree by (vm_compute; reflexivity).
  assert (heap twoEdits !! 0%nat = Some (mkToyTree "ab" 2)) as Hheap
    by (vm_compute; reflexivity).
  assert (_edits twoEdits
          = [editOfChange "xyzab" (insertAt 0 "xyz");
             editOfChange "xyzb" (deleteAt 3 1)]) as Hedits
    by (vm_compute; reflexivity).
  assert (_currentParseOperation twoEdits = None) as Hcur
    by (vm_compute; reflexivity).
  assert (microtasks twoEdits = []) as Hqueue by (vm_compute; reflexivity).
  assert (callParser (_model twoEdits)
            (Some (fold_left tree_edit
                     [editOfChange "xyzab" (insertAt 0 "xyz");
                      editOfChange "xyzb" (deleteAt 3 1)]
                     (mkToyTree "ab" 2)))
            (budgetOf true twoEdits) = Normal (mkToyTree "xyzb" 4)) as Hparse
    by (vm_compute; reflexivity).
  pose proof (parseTree_reparses twoEdits true 0 (mkToyTree "ab" 2)
                (mkToyTree "xyzb" 4) _ _ 16 (le_n 16) Htree Hheap Hedits Hcur
                Hqueue Hparse) as Hrun.
  split_and!; [exact Htree|exact Hheap|exact Hedits|exact Hcur|exact Hqueue
              |exact Hparse| ].
  revert Hrun. generalize (parseTree true twoEdits). intros [s1 p1].
  cbn zeta. generalize (parseTree true (drain 16 s1)). intros [s3 p2].
  intros (H1 & H2 & _ & H4 & _ & H6 & _ & _ & _ & H10 & H11 & _).
  by split_and!.
Defined.

Lemma constructor_restores_first_tree_witness :
  let first := mkToyTree "abc" 3 in
  let edited := mkToyTree "abc" 4 in
  callParser "abc" None 10000 = Normal first /\
  callParser "abc"
    (Some (fold_left tree_edit (map (editOfChange "abc") [insertAt 2 "c"])
             first))
    10000 = Normal first /\
  heap (drain 32 changedAtBirth) = [edited; first] /\
  _tree (drain 32 changedAtBirth) = Some 0%nat /\
  (let '(s1, p) := parseTree true (drain 32 changedAtBirth) in
   promises (drain 32 s1) !! p = Some (Fulfilled (VTree 0)) /\
   parseLog (drain 32 s1) = parseLog (drain 32 changedAtBirth)).
Proof.
  assert (callParser "abc" None 10000 = Normal (mkToyTree "abc" 3)) as Hfirst
    by (vm_compute; reflexivity).
  assert (callParser "abc"
            (Some (fold_left tree_edit
                     (map (editOfChange "abc") [insertAt 2 "c"])
                     (mkToyTree "abc" 3)))
            10000 = Normal (mkToyTree "abc" 3)) as Hsecond
    by (vm_compute; reflexivity).
  pose proof (constructor_restores_first_tree "ab" "abc" (insertAt 2 "c") []
                (mkToyTree "abc" 3) (mkToyTree "abc" 3) 32 (le_n 32)
                Hfirst Hsecond) as Hrun.
  split_and!; [exact Hfirst|exact Hsecond| | | ].
  - revert Hrun. cbn zeta.
    generalize (parseTree true
                  (drain 32
                     (runScript [ChangeContent "abc" [insertAt 2 "c"]]
                        (construct "ab")))).
    intros [s1 p] (Hheap & _). evaluated Hheap.
  - revert Hrun. cbn zeta.
    generalize (parseTree true
                  (drain 32
                     (runScript [ChangeContent "abc" [insertAt 2 "c"]]
                        (construct "ab")))).
    intros [s1 p] (_ & _ & Htree & _). exact Htree.
  - revert Hrun. cbn zeta. unfold changedAtBirth.
    generalize (parseTree true
                  (drain 32
                     (runScript [ChangeContent "abc" [insertAt 2 "c"]]
                        (construct "ab")))).
    intros [s1 p] (_ & _ & _ & _ & _ & _ & Hp & Hlog & _). by split.
Defined.

(** The engine [grown] is at rest with a tree and one buffered edit, and
    its document is too long to parse in 10000 microseconds. *)
Lemma grown_at_rest :
  needsParse grown = true /\
  (_tree grown = None -> _edits grown = []) /\
  _currentParseOperation grown = None /\
  microtasks grown = [] /\
  idleQueue grown = [] /\
  callParser (_model grown) (attemptBaseline grown) (budgetOf true grown)
  = Throw TimeBudgetExceeded /\
  callParser (frozenCopy (_model grown)) (attemptBaseline grown) (50 * 1000)
  = Normal (mkToyTree "abcdefg" 7).
Proof.
  split_and!; try (vm_compute; reflexivity).
  intros Hnone. vm_compute in Hnone. discriminate Hnone.
Qed.

Lemma retries_are_not_counted_witness :
  needsParse grown = true /\
  _currentParseOperation grown = None /\
  callParser (_model grown) (attemptBaseline grown) (budgetOf true grown)
  = Throw TimeBudgetExceeded /\
  Forall
    (fun t =>
       exists e',
         callParser (frozenCopy (_model grown)) (attemptBaseline grown)
           (t * 1000) = Throw e')
    [1; 2] /\
  (let '(s1, p) := parseTreeAndCountCalls true grown in
   let s2 := runTurns 26 [Idle 1; Idle 2] (drain 26 s1) in
   let s3 := runTurn 26 (Idle 50) s2 in
   promises s2 !! p = Some (Pending []) /\
   promises s3 !! p = Some (Fulfilled (VNumber 2)) /\
   length (parseLog s3) = (length (parseLog grown) + 2 + 2)%nat).
Proof.
  destruct grown_at_rest as (Hneeds & Hfirst & Hcur & Hqueue & Hidle & Hthrow
                             & Hok).
  assert (Forall
            (fun t =>
               exists e',
                 callParser (frozenCopy (_model grown)) (attemptBaseline grown)
                   (t * 1000) = Throw e')
            [1; 2]) as Hfail
    by (repeat constructor; exists TimeBudgetExceeded; vm_compute;
        reflexivity).
  pose proof (retries_are_not_counted grown true TimeBudgetExceeded [1; 2] 50
                (mkToyTree "abcdefg" 7) 26 Hneeds Hfirst Hcur Hqueue Hidle
                (le_n 26) Hthrow Hfail Hok) as Hrun.
  split_and!; [exact Hneeds|exact Hcur|exact Hthrow|exact Hfail| ].
  revert Hrun. generalize (parseTreeAndCountCalls true grown). intros [s1 p].
  cbn zeta. cbn [map length].
  intros (Hpending & _ & _ & Hdone & _ & Hcalls & _). by split_and!.
Defined.

Lemma request_waits_for_registered_operation_witness :
  needsParse grown = true /\
  _currentParseOperation grown = None /\
  callParser (_model grown) (attemptBaseline grown) (budgetOf true grown)
  = Throw TimeBudgetExceeded /\
  (let '(s1, p1) := parseTree true grown in
   let s2 := drain 24 s1 in
   let '(s3, p2) := parseTree false s2 in
   let s4 := drain 24 s3 in
   let s5 := runTurn 24 (Idle 50) s4 in
   parseLog s4 = parseLog s2 /\
   promises s4 !! p2 = Some (Pending []) /\
   length (parseLog s5) = (length (parseLog grown) + 2)%nat /\
   promises s5 !! p1 = Some (Fulfilled (VTree (length (heap grown)))) /\
   promises s5 !! p2 = Some (Fulfilled (VTree (length (heap grown))))).
Proof.
  destruct grown_at_rest as (Hneeds & Hfirst & Hcur & Hqueue & Hidle & Hthrow
                             & Hok).
  pose proof (request_waits_for_registered_operation grown true false
                TimeBudgetExceeded 50 (mkToyTree "abcdefg" 7) 24 Hneeds
                Hfirst Hcur Hqueue Hidle (le_n 24) Hthrow Hok) as Hrun.
  split_and!; [exact Hneeds|exact Hcur|exact Hthrow| ].
  revert Hrun. generalize (parseTree true grown). intros [s1 p1].
  cbn zeta. generalize (parseTree false (drain 24 s1)). intros [s3 p2].
  intros (_ & Hlog & _ & _ & Hpending & Hcalls & Hone & Htwo & _).
  by split_and!.
Defined.

Lemma edits_during_fallback_witness :
  let edits := map (editOfChange "abcde") [deleteAt 5 2] in
  let fromCopy := mkToyTree "abcdefg" 7 in
  needsParse grown = true /\
  callParser (_model grown) (attemptBaseline grown) (budgetOf true grown)
  = Throw TimeBudgetExceeded /\
  callParser (frozenCopy (_model grown)) (attemptBaseline grown) (50 * 1000)
  = Normal fromCopy /\
  callParser "abcde" (Some (fold_left tree_edit edits fromCopy)) 10000
  = Normal (mkToyTree "abcde" 5) /\
  (let '(s1, p) := parseTree true grown in
   let s2 :=
     runTurn 32 (Script [ChangeContent "abcde" [deleteAt 5 2]])
       (drain 32 s1) in
   let s3 := runTurn 32 (Idle 50) s2 in
   promises s3 !! p = Some (Fulfilled (VTree (length (heap grown)))) /\
   heap s3 !! length (heap grown) = Some (fold_left tree_edit edits fromCopy) /\
   _tree s3 = Some (S (length (heap grown))) /\
   heap s3 !! S (length (heap grown)) = Some (mkToyTree "abcde" 5)).
Proof.
  destruct grown_at_rest as (Hneeds & Hfirst & Hcur & Hqueue & Hidle & Hthrow
                             & Hok).
  assert (callParser "abcde"
            (Some (fold_left tree_edit
                     (map (editOfChange "abcde") [deleteAt 5 2])
                     (mkToyTree "abcdefg" 7)))
            (if true then 10000 else 50 * 1000)
          = Normal (mkToyTree "abcde" 5)) as Hagain
    by (vm_compute; reflexivity).
  pose proof (edits_during_fallback grown true TimeBudgetExceeded "abcde"
                (deleteAt 5 2) [] 50 (mkToyTree "abcdefg" 7)
                (mkToyTree "abcde" 5) 32 Hneeds Hfirst Hcur Hqueue Hidle
                (le_n 32) Hthrow Hok Hagain) as Hrun.
  split_and!; [exact Hneeds|exact Hthrow|exact Hok|exact Hagain| ].
  revert Hrun. generalize (parseTree true grown). intros [s1 p].
  cbn zeta. intros (_ & _ & Hp & Hold & Htree & Hnew & _). by split_and!.
Defined.

Lemma same_turn_requests_both_attempt_witness :
  callParser "abcdef" None 10000 = Throw TimeBudgetExceeded /\
  (let '(s1, p) := @parseTree string ToyTree true (construct "abcdef") in
   let s2 := drain 16 s1 in
   length (parseLog s2) = 2%nat /\
   length (idleQueue s2) = 2%nat /\
   promises s2 !! p = Some (Pending [])).
Proof.
  assert (callParser "abcdef" None 10000 = Throw TimeBudgetExceeded)
    as Hthrow by (vm_compute; reflexivity).
  pose proof (same_turn_requests_both_attempt "abcdef" true
                TimeBudgetExceeded 16 (le_n 16) Hthrow) as Hrun.
  split; [exact Hthrow|].
  revert Hrun.
  generalize (@parseTree string ToyTree true (construct "abcdef")).
  intros [s1 p]. cbn zeta.
  intros (Hlog & (q & q' & _ & Hidle) & Hpending & _).
  rewrite Hlog, Hidle. by split_and!.
Defined.

Lemma same_turn_request_gets_old_tree_witness :
  let edit := editOfChange "abcdefg" (insertAt 2 "cdefg") in
  let old := mkToyTree "ab" 2 in
  _tree grown = Some 0%nat /\
  heap grown !! 0%nat = Some old /\
  _edits grown = [edit] /\
  callParser (_model grown) (Some (fold_left tree_edit [edit] old))
    (budgetOf true grown) = Throw TimeBudgetExceeded /\
  (let '(s1, p1) := parseTree true grown in
   let '(s2, p2) := parseTree true s1 in
   let s3 := drain 16 s2 in
   promises s3 !! p2 = Some (Fulfilled (VTree 0)) /\
   heap s3 !! 0%nat = Some (fold_left tree_edit [edit] old) /\
   promises s3 !! p1 = Some (Pending []) /\
   _edits s3 = []).
Proof.
  destruct grown_at_rest as (_ & _ & Hcur & Hqueue & Hidle & _ & _).
  assert (_tree grown = Some 0%nat) as Htree by (vm_compute; reflexivity).
  assert (heap grown !! 0%nat = Some (mkToyTree "ab" 2)) as Hheap
    by (vm_compute; reflexivity).
  assert (_edits grown = [editOfChange "abcdefg" (insertAt 2 "cdefg")])
    as Hedits by (vm_compute; reflexivity).
  assert (callParser (_model grown)
            (Some (fold_left tree_edit
                     [editOfChange "abcdefg" (insertAt 2 "cdefg")]
                     (mkToyTree "ab" 2)))
            (budgetOf true grown) = Throw TimeBudgetExceeded) as Hthrow
    by (vm_compute; reflexivity).
  pose proof (same_turn_request_gets_old_tree grown true true
                TimeBudgetExceeded 0 (mkToyTree "ab" 2) _ _ 16 Htree Hheap
                Hedits Hcur Hqueue Hidle (le_n 16) Hthrow) as Hrun.
  split_and!; [exact Htree|exact Hheap|exact Hedits|exact Hthrow| ].
  revert Hrun. generalize (parseTree true grown). intros [s1 p1].
  generalize (parseTree true s1). intros [s2 p2]. cbn zeta.
  intros (Hp2 & Hold & _ & Hp1 & _ & _ & _ & Hed & _). by split_and!.
Defined.

Lemma synchronous_attempt_inherits_budget_witness :
  idleQueue waiting = [mkIdleTask "abcdef" (Some 0%nat) 8] /\
  pc_budget <$> last (parseLog (fst (_tryParseSync false waiting)))
  = Some 10000 /\
  pc_budget
    <$> last (parseLog (fst (_tryParseSync false (idleSlice 3 waiting))))
  = Some (3 * 1000) /\
  pc_outcome
    <$> last (parseLog (fst (_tryParseSync false (idleSlice 3 waiting))))
  = Some (Throw TimeBudgetExceeded).
Proof.
  assert (idleQueue waiting = [mkIdleTask "abcdef" (Some 0%nat) 8]) as Hqueue
    by (vm_compute; reflexivity).
  destruct (synchronous_attempt_inherits_budget waiting _ _ 3 Hqueue)
    as (_ & Hsync & _ & _ & Hafter).
  split_and!; [exact Hqueue| |exact Hafter|vm_compute; reflexivity].
  rewrite Hsync. vm_compute. reflexivity.
Defined.

Lemma retrieveText_reads_the_text_witness :
  let text := "let x = 1;" in
  0 <= 4 /\
  _retrieveTextAtPosition text 4 None None = "x = 1;" /\
  (_retrieveTextAtPosition text 4 None None = EmptyString <-> 10 <= 4) /\
  (_retrieveTextAtPosition text 10 None None = EmptyString <-> 10 <= 10) /\
  readAll 1 (fun i p e => _retrieveTextAtPosition text i p e) 0 = text.
Proof.
  assert (0 <= 4) as Hfour by lia.
  assert (0 <= 10) as Hten by lia.
  destruct (retrieveText_reads_the_text _ stringModel_laws "let x = 1;" 4
              None 1 Hfour) as (Hchunk & _ & Hend & Hall).
  destruct (retrieveText_reads_the_text _ stringModel_laws "let x = 1;" 10
              None 1 Hten) as (_ & _ & Hend' & _).
  split_and!; [exact Hfour|exact Hchunk|exact Hend|exact Hend'| ].
  apply Hall. vm_compute. lia.
Defined.

Lemma frozenCopy_reads_alike_witness :
  let text := "let x = 1;" in
  (forall n, Some 7 = Some n -> 4 <= n) /\
  _retrieveTextAtPosition (frozenCopy text) 4 None (Some 7)
  = _retrieveTextAtPosition text 4 None (Some 7) /\
  _retrieveTextAtPosition (frozenCopy text) 4 None (Some 7) = "x =".
Proof.
  assert (forall n, Some 7 = Some n -> 4 <= n) as Horder
    by (intros n Hn; inversion Hn; lia).
  destruct (frozenCopy_reads_alike _ stringModel_laws "let x = 1;" 4 None
              (Some 7) Horder) as [_ Hsame].
  split_and!; [exact Horder|exact Hsame|vm_compute; reflexivity].
Defined.

Lemma request_after_dispose_witness :
  let o := mkOwned settled true [] false in
  _tree settled = Some 0%nat /\
  _currentParseOperation settled = None /\
  microtasks settled = [] /\
  deletedTrees (dispose o) = [0%nat] /\
  (let '(s1, p) := parseTree true (engine (dispose o)) in
   promises (drain 16 s1) !! p = Some (Fulfilled (VTree 0)) /\
   parseLog (drain 16 s1) = parseLog settled).
Proof.
  assert (_tree settled = Some 0%nat) as Htree by (vm_compute; reflexivity).
  assert (_currentParseOperation settled = None) as Hcur
    by (vm_compute; reflexivity).
  assert (microtasks settled = []) as Hqueue by (vm_compute; reflexivity).
  pose proof (request_after_dispose (mkOwned settled true [] false) true 0 16
                Htree Hcur Hqueue (le_n 16)) as Hrun.
  split_and!; [exact Htree|exact Hcur|exact Hqueue|vm_compute; reflexivity| ].
  revert Hrun. cbn zeta.
  generalize
    (parseTree true (engine (dispose (mkOwned settled true [] false)))).
  intros [s1 p] (_ & _ & _ & Hp & Hlog & _). by split.
Defined.

Lemma dispose_leaves_fallback_queued_witness :
  let o := mkOwned waiting true [] false in
  idleQueue waiting = [mkIdleTask "abcdef" (Some 0%nat) 8] /\
  parserDeleted (dispose o) = true /\
  idleQueue (engine (dispose o)) = [mkIdleTask "abcdef" (Some 0%nat) 8] /\
  length (parseLog (idleSlice 50 (engine (dispose o))))
  = S (length (parseLog waiting)).
Proof.
  assert (idleQueue waiting = [mkIdleTask "abcdef" (Some 0%nat) 8]) as Hqueue
    by (vm_compute; reflexivity).
  destruct (dispose_leaves_fallback_queued (mkOwned waiting true [] false)
              _ _ 50 Hqueue) as (Hdeleted & Hkept & _ & _ & outcome & Hlog).
  split_and!; [exact Hqueue|exact Hdeleted|exact Hkept| ].
  rewrite Hlog, length_app. cbn [length engine]. lia.
Defined.

Lemma counter_is_shared_witness :
  _tree settled = Some 0%nat /\
  _edits settled = [] /\
  _currentParseOperation settled = None /\
  microtasks settled = [] /\
  (let '(s1, counted) := parseTreeAndCountCalls true settled in
   let '(s2, other) := parseTree true s1 in
   let s3 := drain 16 s2 in
   promises s3 !! counted = Some (Fulfilled (VNumber 2)) /\
   parseLog s3 = parseLog settled).
Proof.
  assert (_tree settled = Some 0%nat) as Htree by (vm_compute; reflexivity).
  assert (_edits settled = []) as Hedits by (vm_compute; reflexivity).
  assert (_currentParseOperation settled = None) as Hcur
    by (vm_compute; reflexivity).
  assert (microtasks settled = []) as Hqueue by (vm_compute; reflexivity).
  pose proof (counter_is_shared settled true true 0 16 Htree Hedits Hcur
                Hqueue (le_n 16)) as Hrun.
  split_and!; [exact Htree|exact Hedits|exact Hcur|exact Hqueue| ].
  revert Hrun. generalize (parseTreeAndCountCalls true settled).
  intros [s1 counted]. generalize (parseTree true s1). intros [s2 other].
  cbn zeta. intros (Hcount & _ & Hlog & _). by split.
Defined.
